(** * A doubly-linked list container (list.c / list.h)

    The C code is embedded as functions of a small state-and-fault monad
    over an explicit memory: every [list_node_t], [list_t] and
    [list_iterator_t] lives at an address of a finite map, pointers are
    integers with [NULL = 0], and dereferencing a null or dangling pointer
    is a [Fault].  The value handles ([void *]) are addresses as well, so
    the default ordering of the ordered insertions is the ordering of [Z]. *)

From Stdlib Require Import ZArith Lia List Sorted Permutation.
From stdpp Require Import base gmap list sorting.

Local Open Scope Z_scope.

(** ** Data model (list.h) *)

Definition NULL : Z := 0.

(** [typedef enum { LIST_HEAD, LIST_TAIL } list_direction_t;] *)
Inductive list_direction_t : Type := LIST_HEAD | LIST_TAIL.

(** [struct list_node]: two neighbour pointers and the value handle. *)
Record list_node_t : Type := Node {
  node_prev : Z;
  node_next : Z;
  node_val : Z
}.

(** What a [void ( *free)(void * )] field can hold: the allocator's own
    release function ([LIST_FREE], that is [free]) or a function of the
    caller, named by a number. *)
Inductive release_fn : Type :=
| LIST_FREE
| user_release (id : Z).

(** [list_t]: [len] is an [unsigned int]; the callbacks are absent ([None])
    or installed.  [match] and [compare] return a C [int]. *)
Record list_t : Type := List {
  list_head : Z;
  list_tail : Z;
  list_len : Z;
  list_free : option release_fn;
  list_match : option (Z -> Z -> Z);
  list_compare : option (Z -> Z -> Z)
}.

(** [list_iterator_t]. *)
Record list_iterator_t : Type := Iter {
  it_next : Z;
  it_direction : list_direction_t
}.

(** The memory: the three kinds of objects by address, the calls made so
    far to release callbacks (callback and value handle, oldest first), and
    the number of allocations [LIST_MALLOC] will still grant. *)
Record mem : Type := Mem {
  nodes : gmap Z list_node_t;
  lists : gmap Z list_t;
  iters : gmap Z list_iterator_t;
  released : list (release_fn * Z);
  budget : nat
}.

Definition with_nodes (m : mem) (h : gmap Z list_node_t) : mem :=
  Mem h (lists m) (iters m) (released m) (budget m).
Definition with_lists (m : mem) (h : gmap Z list_t) : mem :=
  Mem (nodes m) h (iters m) (released m) (budget m).
Definition with_iters (m : mem) (h : gmap Z list_iterator_t) : mem :=
  Mem (nodes m) (lists m) h (released m) (budget m).
Definition with_released (m : mem) (r : list (release_fn * Z)) : mem :=
  Mem (nodes m) (lists m) (iters m) r (budget m).
Definition with_budget (m : mem) (b : nat) : mem :=
  Mem (nodes m) (lists m) (iters m) (released m) b.

(** ** The monad *)

Inductive outcome (A : Type) : Type :=
| Ok (a : A) (m : mem)
| Fault
| Diverge.
Arguments Ok {A} a m.
Arguments Fault {A}.
Arguments Diverge {A}.

Definition M (A : Type) : Type := mem -> outcome A.

Definition ret {A} (a : A) : M A := fun m => Ok a m.

Definition bind {A B} (c : M A) (k : A -> M B) : M B :=
  fun m => match c m with
           | Ok a m' => k a m'
           | Fault => Fault
           | Diverge => Diverge
           end.

Notation "x <- c ;; k" := (bind c (fun x => k))
  (at level 100, c at next level, right associativity).
Notation "c ;;; k" := (bind c (fun _ => k))
  (at level 100, right associativity).

(** ** Memory primitives *)

(** [*p]: defined only for a non-null pointer to a live object. *)
Definition deref {V} (h : gmap Z V) (p : Z) : option V :=
  if p =? NULL then None else h !! p.

(** An address no live object of the region has, and not [NULL]. *)
Definition fresh_addr {V} (h : gmap Z V) : Z :=
  1 + map_fold (fun k _ acc => Z.max k acc) 0 h.

Definition wrap32 (z : Z) : Z := z mod 2 ^ 32.

Definition get_node (p : Z) : M list_node_t :=
  fun m => match deref (nodes m) p with
           | Some n => Ok n m
           | None => Fault
           end.

Definition put_node (p : Z) (n : list_node_t) : M unit :=
  fun m => match deref (nodes m) p with
           | Some _ => Ok tt (with_nodes m (<[p := n]> (nodes m)))
           | None => Fault
           end.

Definition get_list (p : Z) : M list_t :=
  fun m => match deref (lists m) p with
           | Some l => Ok l m
           | None => Fault
           end.

Definition put_list (p : Z) (l : list_t) : M unit :=
  fun m => match deref (lists m) p with
           | Some _ => Ok tt (with_lists m (<[p := l]> (lists m)))
           | None => Fault
           end.

Definition get_iter (p : Z) : M list_iterator_t :=
  fun m => match deref (iters m) p with
           | Some i => Ok i m
           | None => Fault
           end.

Definition put_iter (p : Z) (i : list_iterator_t) : M unit :=
  fun m => match deref (iters m) p with
           | Some _ => Ok tt (with_iters m (<[p := i]> (iters m)))
           | None => Fault
           end.

(** [LIST_MALLOC(sizeof(list_node_t))]: [NULL] when the allocator is
    exhausted, else a fresh object of indeterminate content. *)
Definition malloc_node : M Z :=
  fun m => match budget m with
           | O => Ok NULL m
           | S b =>
               let p := fresh_addr (nodes m) in
               Ok p (with_budget (with_nodes m (<[p := Node 0 0 0]> (nodes m))) b)
           end.

Definition malloc_list : M Z :=
  fun m => match budget m with
           | O => Ok NULL m
           | S b =>
               let p := fresh_addr (lists m) in
               Ok p (with_budget
                       (with_lists m (<[p := List 0 0 0 None None None]> (lists m))) b)
           end.

Definition malloc_iter : M Z :=
  fun m => match budget m with
           | O => Ok NULL m
           | S b =>
               let p := fresh_addr (iters m) in
               Ok p (with_budget (with_iters m (<[p := Iter 0 LIST_HEAD]> (iters m))) b)
           end.

(** [LIST_FREE(p)]: nothing for [NULL], undefined for a pointer that is not
    live. *)
Definition free_node (p : Z) : M unit :=
  fun m => if p =? NULL then Ok tt m
           else match nodes m !! p with
                | Some _ => Ok tt (with_nodes m (delete p (nodes m)))
                | None => Fault
                end.

Definition free_list (p : Z) : M unit :=
  fun m => if p =? NULL then Ok tt m
           else match lists m !! p with
                | Some _ => Ok tt (with_lists m (delete p (lists m)))
                | None => Fault
                end.

Definition free_iter (p : Z) : M unit :=
  fun m => if p =? NULL then Ok tt m
           else match iters m !! p with
                | Some _ => Ok tt (with_iters m (delete p (iters m)))
                | None => Fault
                end.

(** [self->free(v)]: the call is recorded. *)
Definition call_release (f : release_fn) (v : Z) : M unit :=
  fun m => Ok tt (with_released m (released m ++ [(f, v)])).

(** Field reads and writes. *)
Definition get_prev (p : Z) : M Z := n <- get_node p ;; ret (node_prev n).
Definition get_next (p : Z) : M Z := n <- get_node p ;; ret (node_next n).
Definition get_val (p : Z) : M Z := n <- get_node p ;; ret (node_val n).
Definition set_prev (p x : Z) : M unit :=
  n <- get_node p ;; put_node p (Node x (node_next n) (node_val n)).
Definition set_next (p x : Z) : M unit :=
  n <- get_node p ;; put_node p (Node (node_prev n) x (node_val n)).
Definition set_val (p x : Z) : M unit :=
  n <- get_node p ;; put_node p (Node (node_prev n) (node_next n) x).

Definition get_head (p : Z) : M Z := l <- get_list p ;; ret (list_head l).
Definition get_tail (p : Z) : M Z := l <- get_list p ;; ret (list_tail l).
Definition get_len (p : Z) : M Z := l <- get_list p ;; ret (list_len l).
Definition get_free (p : Z) : M (option release_fn) :=
  l <- get_list p ;; ret (list_free l).
Definition get_match (p : Z) : M (option (Z -> Z -> Z)) :=
  l <- get_list p ;; ret (list_match l).
Definition get_compare (p : Z) : M (option (Z -> Z -> Z)) :=
  l <- get_list p ;; ret (list_compare l).
Definition set_head (p x : Z) : M unit :=
  l <- get_list p ;;
  put_list p (List x (list_tail l) (list_len l) (list_free l) (list_match l)
                (list_compare l)).
Definition set_tail (p x : Z) : M unit :=
  l <- get_list p ;;
  put_list p (List (list_head l) x (list_len l) (list_free l) (list_match l)
                (list_compare l)).
Definition set_len (p x : Z) : M unit :=
  l <- get_list p ;;
  put_list p (List (list_head l) (list_tail l) x (list_free l) (list_match l)
                (list_compare l)).
Definition set_free (p : Z) (x : option release_fn) : M unit :=
  l <- get_list p ;;
  put_list p (List (list_head l) (list_tail l) (list_len l) x (list_match l)
                (list_compare l)).
Definition set_match (p : Z) (x : option (Z -> Z -> Z)) : M unit :=
  l <- get_list p ;;
  put_list p (List (list_head l) (list_tail l) (list_len l) (list_free l) x
                (list_compare l)).
Definition set_compare (p : Z) (x : option (Z -> Z -> Z)) : M unit :=
  l <- get_list p ;;
  put_list p (List (list_head l) (list_tail l) (list_len l) (list_free l)
                (list_match l) x).

Definition get_it_next (p : Z) : M Z := i <- get_iter p ;; ret (it_next i).
Definition get_it_direction (p : Z) : M list_direction_t :=
  i <- get_iter p ;; ret (it_direction i).
Definition set_it_next (p x : Z) : M unit :=
  i <- get_iter p ;; put_iter p (Iter x (it_direction i)).
Definition set_it_direction (p : Z) (d : list_direction_t) : M unit :=
  i <- get_iter p ;; put_iter p (Iter (it_next i) d).

(** ** The functions of list.c and list.h

    The two files define the same functions with the same bodies, that of
    [list_new] apart: list.c leaves [free] null, the inline definition of
    list.h stores [LIST_FREE] there. *)

Definition is_null (p : Z) : bool := p =? NULL.

(** [list_node_new]. *)
Definition list_node_new (v : Z) : M Z :=
  if is_null v then ret NULL
  else
    self <- malloc_node ;;
    if is_null self then ret NULL
    else
      set_prev self NULL ;;;
      set_next self NULL ;;;
      set_val self v ;;;
      ret self.

(** [list_new] of list.c. *)
Definition list_new : M Z :=
  self <- malloc_list ;;
  if is_null self then ret NULL
  else
    set_head self NULL ;;;
    set_tail self NULL ;;;
    set_free self None ;;;
    set_match self None ;;;
    set_compare self None ;;;
    set_len self 0 ;;;
    ret self.

(** [list_new] of list.h ([static inline]). *)
Definition list_new_inline : M Z :=
  self <- malloc_list ;;
  if is_null self then ret NULL
  else
    set_head self NULL ;;;
    set_tail self NULL ;;;
    set_free self (Some LIST_FREE) ;;;
    set_match self None ;;;
    set_compare self None ;;;
    set_len self 0 ;;;
    ret self.

(** [if (self->free) self->free(node->val);] *)
Definition release_val (self node : Z) : M unit :=
  f <- get_free self ;;
  match f with
  | Some fn => v <- get_val node ;; call_release fn v
  | None => ret tt
  end.

(** [list_remove]. *)
Definition list_remove (self node : Z) : M Z :=
  if is_null self || is_null node then ret (-1)
  else
    np <- get_prev node ;;
    (if negb (is_null np)
     then nn <- get_next node ;; set_next np nn
     else nn <- get_next node ;; set_head self nn) ;;;
    nn <- get_next node ;;
    (if negb (is_null nn)
     then np <- get_prev node ;; set_prev nn np
     else np <- get_prev node ;; set_tail self np) ;;;
    release_val self node ;;;
    free_node node ;;;
    len <- get_len self ;;
    set_len self (wrap32 (len - 1)) ;;;
    ret 0.

(** The loop [while (len--) { ... }] of [list_destroy]. *)
Fixpoint destroy_loop (len : nat) (self curr : Z) : M unit :=
  match len with
  | O => ret tt
  | S len' =>
      next <- get_next curr ;;
      release_val self curr ;;;
      free_node curr ;;;
      destroy_loop len' self next
  end.

(** [list_destroy]. *)
Definition list_destroy (self : Z) : M Z :=
  if is_null self then ret (-1)
  else
    len <- get_len self ;;
    curr <- get_head self ;;
    destroy_loop (Z.to_nat len) self curr ;;;
    free_list self ;;;
    ret 0.

(** [list_rpush]. *)
Definition list_rpush (self node : Z) : M Z :=
  if is_null self || is_null node then ret NULL
  else
    len <- get_len self ;;
    (if negb (len =? 0)
     then
       t <- get_tail self ;;
       set_prev node t ;;;
       set_next node NULL ;;;
       t <- get_tail self ;;
       set_next t node ;;;
       set_tail self node
     else
       set_tail self node ;;;
       set_head self node ;;;
       set_next node NULL ;;;
       set_prev node NULL) ;;;
    len <- get_len self ;;
    set_len self (wrap32 (len + 1)) ;;;
    ret node.

(** [list_lpush]. *)
Definition list_lpush (self node : Z) : M Z :=
  if is_null self || is_null node then ret NULL
  else
    len <- get_len self ;;
    (if negb (len =? 0)
     then
       h <- get_head self ;;
       set_next node h ;;;
       set_prev node NULL ;;;
       h <- get_head self ;;
       set_prev h node ;;;
       set_head self node
     else
       set_tail self node ;;;
       set_head self node ;;;
       set_next node NULL ;;;
       set_prev node NULL) ;;;
    len <- get_len self ;;
    set_len self (wrap32 (len + 1)) ;;;
    ret node.

(** [list_rpop]. *)
Definition list_rpop (self : Z) : M Z :=
  if is_null self then ret NULL
  else
    len <- get_len self ;;
    if len =? 0 then ret NULL
    else
      node <- get_tail self ;;
      len <- get_len self ;;
      set_len self (wrap32 (len - 1)) ;;;
      len <- get_len self ;;
      (if negb (len =? 0)
       then
         p <- get_prev node ;;
         set_tail self p ;;;
         set_next p NULL
       else
         set_head self NULL ;;;
         set_tail self NULL) ;;;
      set_prev node NULL ;;;
      set_next node NULL ;;;
      ret node.

(** [list_lpop]. *)
Definition list_lpop (self : Z) : M Z :=
  if is_null self then ret NULL
  else
    len <- get_len self ;;
    if len =? 0 then ret NULL
    else
      node <- get_head self ;;
      len <- get_len self ;;
      set_len self (wrap32 (len - 1)) ;;;
      len <- get_len self ;;
      (if negb (len =? 0)
       then
         n <- get_next node ;;
         set_head self n ;;;
         set_prev n NULL
       else
         set_tail self NULL ;;;
         set_head self NULL) ;;;
      set_prev node NULL ;;;
      set_next node NULL ;;;
      ret node.

(** [list_iterator_new_from_node]. *)
Definition list_iterator_new_from_node (node : Z) (direction : list_direction_t)
  : M Z :=
  self <- malloc_iter ;;
  if is_null self then ret NULL
  else
    set_it_next self node ;;;
    set_it_direction self direction ;;;
    ret self.

(** [list_iterator_new]: the list handle is read without a test. *)
Definition list_iterator_new (list : Z) (direction : list_direction_t) : M Z :=
  node <- match direction with
          | LIST_HEAD => get_head list
          | LIST_TAIL => get_tail list
          end ;;
  list_iterator_new_from_node node direction.

(** [list_iterator_next]: the iterator handle is read without a test. *)
Definition list_iterator_next (self : Z) : M Z :=
  curr <- get_it_next self ;;
  (if negb (is_null curr)
   then
     d <- get_it_direction self ;;
     n <- match d with
          | LIST_HEAD => get_next curr
          | LIST_TAIL => get_prev curr
          end ;;
     set_it_next self n
   else ret tt) ;;;
  ret curr.

(** [list_iterator_destroy]. *)
Definition list_iterator_destroy (self : Z) : M unit := free_iter self.

(** The loop of [list_find].  A walk over [k] live nodes that has taken
    more than [k] steps is in a cycle and goes on for ever: the function is
    run with as many steps as there are live nodes, and one more. *)
Fixpoint find_loop (fuel : nat) (self it v : Z) : M Z :=
  match fuel with
  | O => fun _ => Diverge
  | S fuel' =>
      node <- list_iterator_next it ;;
      if is_null node then list_iterator_destroy it ;;; ret NULL
      else
        mt <- get_match self ;;
        nv <- get_val node ;;
        let hit := match mt with
                   | Some f => negb (f nv v =? 0)
                   | None => nv =? v
                   end in
        if hit then list_iterator_destroy it ;;; ret node
        else find_loop fuel' self it v
  end.

(** [list_find]. *)
Definition list_find (self v : Z) : M Z :=
  if is_null self then ret NULL
  else
    it <- list_iterator_new self LIST_HEAD ;;
    fun m => find_loop (S (size (nodes m))) self it v m.

(** The loop [while (index--) node = list_iterator_next(it);] of [list_at]. *)
Fixpoint at_loop (index : nat) (it node : Z) : M Z :=
  match index with
  | O => ret node
  | S index' => node' <- list_iterator_next it ;; at_loop index' it node'
  end.

(** [list_at]; [index] is an [int]. *)
Definition list_at (self index : Z) : M Z :=
  if is_null self then ret NULL
  else
    let direction := if index <? 0 then LIST_TAIL else LIST_HEAD in
    let index := if index <? 0 then Z.lnot index else index in
    len <- get_len self ;;
    if wrap32 index <? len
    then
      it <- list_iterator_new self direction ;;
      node <- list_iterator_next it ;;
      node <- at_loop (Z.to_nat index) it node ;;
      list_iterator_destroy it ;;;
      ret node
    else ret NULL.

(** The tests that leave the scan of the ordered insertions. *)
Definition asc_break (cmp : option (Z -> Z -> Z)) (a b : Z) : bool :=
  match cmp with
  | Some f => negb (f a b =? 0)
  | None => a >? b
  end.

Definition desc_break (cmp : option (Z -> Z -> Z)) (a b : Z) : bool :=
  match cmp with
  | Some f => f a b =? 0
  | None => a <? b
  end.

(** The scan [while ((node = list_iterator_next(it))) { ... break ... }]
    shared, the test apart, by [list_push_asc] and [list_push_desc]; the
    result is the value of [node] after the loop. *)
Fixpoint push_scan (brk : option (Z -> Z -> Z) -> Z -> Z -> bool) (fuel : nat)
  (self it node_in : Z) : M Z :=
  match fuel with
  | O => fun _ => Diverge
  | S fuel' =>
      node <- list_iterator_next it ;;
      if is_null node then ret NULL
      else
        cmp <- get_compare self ;;
        a <- get_val node ;;
        b <- get_val node_in ;;
        if brk cmp a b then ret node
        else push_scan brk fuel' self it node_in
  end.

(** The body the two ordered insertions share. *)
Definition push_ordered (brk : option (Z -> Z -> Z) -> Z -> Z -> bool)
  (self node_in : Z) : M Z :=
  if is_null self || is_null node_in then ret NULL
  else
    len <- get_len self ;;
    if 0 =? len then list_rpush self node_in
    else
      it <- list_iterator_new self LIST_HEAD ;;
      node <- (fun m => push_scan brk (S (size (nodes m))) self it node_in m) ;;
      list_iterator_destroy it ;;;
      if is_null node then list_rpush self node_in
      else
        np <- get_prev node ;;
        if is_null np then list_lpush self node_in
        else
          set_next node_in node ;;;
          np <- get_prev node ;;
          set_prev node_in np ;;;
          np <- get_prev node ;;
          set_next np node_in ;;;
          set_prev node node_in ;;;
          len <- get_len self ;;
          set_len self (wrap32 (len + 1)) ;;;
          ret node_in.

(** [list_push_asc]. *)
Definition list_push_asc (self node_in : Z) : M Z :=
  push_ordered asc_break self node_in.

(** [list_push_desc]. *)
Definition list_push_desc (self node_in : Z) : M Z :=
  push_ordered desc_break self node_in.

(** ** The chain a list stands for

    A list is described by the sequence of its nodes from head to tail,
    each with its address and its value handle. *)

Definition hd_ptr (l : list (Z * Z)) (d : Z) : Z :=
  match l with
  | [] => d
  | (p, _) :: _ => p
  end.

Definition last_ptr (l : list (Z * Z)) (d : Z) : Z :=
  match last l with
  | Some (p, _) => p
  | None => d
  end.

(** The content every node of the chain [l] must have, when [prv] is the
    [prev] of its first node and [nx] the [next] of its last. *)
Fixpoint cells (prv : Z) (l : list (Z * Z)) (nx : Z) : list (Z * list_node_t) :=
  match l with
  | [] => []
  | (p, v) :: l' => (p, Node prv (hd_ptr l' nx) v) :: cells p l' nx
  end.

Definition cell_in (h : gmap Z list_node_t) (c : Z * list_node_t) : Prop :=
  c.1 ≠ NULL ∧ h !! c.1 = Some c.2.

Definition dll (h : gmap Z list_node_t) (prv : Z) (l : list (Z * Z)) (nx : Z)
  : Prop :=
  Forall (cell_in h) (cells prv l nx).

(** The callbacks of a list. *)
Record callbacks : Type := Callbacks {
  cb_free : option release_fn;
  cb_match : option (Z -> Z -> Z);
  cb_compare : option (Z -> Z -> Z)
}.

Definition no_callbacks : callbacks := Callbacks None None None.

(** [is_list m L cb l]: at [L] lives a list with callbacks [cb] whose chain
    is [l]: [head], [tail] and [len] describe it, no node occurs twice, and
    the links are those of [cells]. *)
Definition is_list (m : mem) (L : Z) (cb : callbacks) (l : list (Z * Z)) : Prop :=
  L ≠ NULL ∧
  lists m !! L =
    Some (List (hd_ptr l NULL) (last_ptr l NULL) (Z.of_nat (length l))
            (cb_free cb) (cb_match cb) (cb_compare cb)) ∧
  Z.of_nat (length l) < 2 ^ 32 ∧
  NoDup l.*1 ∧
  dll (nodes m) NULL l NULL.

(** The nodes reached from [p] by [next] links, up to the null link. *)
Inductive reach (h : gmap Z list_node_t) : Z -> list Z -> Prop :=
| reach_null : reach h NULL []
| reach_cons p n ps :
    p ≠ NULL -> h !! p = Some n -> reach h (node_next n) ps ->
    reach h p (p :: ps).

(** The structural invariants of a list, as the data model states them. *)
Definition invariants (m : mem) (L : Z) : Prop :=
  ∃ lt ps,
    lists m !! L = Some lt ∧
    reach (nodes m) (list_head lt) ps ∧
    list_len lt = Z.of_nat (length ps) ∧
    (list_len lt = 0 ↔ list_head lt = NULL) ∧
    (list_head lt = NULL ↔ list_tail lt = NULL) ∧
    list_tail lt = default NULL (last ps) ∧
    (∀ n, deref (nodes m) (list_head lt) = Some n → node_prev n = NULL) ∧
    (∀ n, deref (nodes m) (list_tail lt) = Some n → node_next n = NULL) ∧
    (∀ p n, p ∈ ps → nodes m !! p = Some n →
       (node_next n ≠ NULL →
        ∃ n', nodes m !! node_next n = Some n' ∧ node_prev n' = p) ∧
       (node_prev n ≠ NULL →
        ∃ n', nodes m !! node_prev n = Some n' ∧ node_next n' = p)).

(** ** Scenarios and the chains they leave

    The drivers of the properties below, the chain an ordered insertion
    leaves, and the obligations of a caller. *)

(** What an operation leaves alone: the release log, the allocator, the
    iterators, and every node outside [touched]. *)
Definition frame (m m' : mem) (touched : list Z) : Prop :=
  released m' = released m ∧ budget m' = budget m ∧ iters m' = iters m ∧
  ∀ q, q ∉ touched → nodes m' !! q = nodes m !! q.

(** The node at offset [k] of a chain, [NULL] past its end. *)
Definition nth_ptr (l : list (Z * Z)) (k : nat) : Z := hd_ptr (drop k l) NULL.

(** The chain after an ordered insertion of [x] (address and value): [x]
    goes before the first node whose value makes the scan leave, or last. *)
Fixpoint insert_ordered (brk : option (Z -> Z -> Z) -> Z -> Z -> bool)
  (cmp : option (Z -> Z -> Z)) (x : Z * Z) (l : list (Z * Z)) : list (Z * Z) :=
  match l with
  | [] => [x]
  | (q, a) :: l' =>
      if brk cmp a x.2 then x :: l else (q, a) :: insert_ordered brk cmp x l'
  end.

(** Values inserted one at a time, each in a node of its own. *)
Fixpoint insert_all (push : Z -> Z -> M Z) (self : Z) (vs : list Z) : M unit :=
  match vs with
  | [] => ret tt
  | v :: vs' =>
      node <- list_node_new v ;;
      push self node ;;;
      insert_all push self vs'
  end.

Definition non_null (v : Z) : bool := negb (is_null v).

(** The nodes met from [p] along [next], with their values; [fuel] bounds
    the walk. *)
Fixpoint walk (fuel : nat) (h : gmap Z list_node_t) (p : Z) : list (Z * Z) :=
  match fuel with
  | O => []
  | S fuel' =>
      match deref h p with
      | Some n => (p, node_val n) :: walk fuel' h (node_next n)
      | None => []
      end
  end.

(** The chain of the list at [L], read from its head. *)
Definition chain_of (m : mem) (L : Z) : list (Z * Z) :=
  match deref (lists m) L with
  | Some lt => walk (size (nodes m)) (nodes m) (list_head lt)
  | None => []
  end.

(** A list made by [list_new] and filled by ordered insertion. *)
Definition build (push : Z -> Z -> M Z) (vs : list Z) : M Z :=
  self <- list_new ;;
  insert_all push self vs ;;;
  ret self.

Definition empty_mem (budget : nat) : mem := Mem ∅ ∅ ∅ [] budget.

(** The callback list.h describes: "if a > b, return 1, else return 0". *)
Definition compare_gt (a b : Z) : Z := if a >? b then 1 else 0.

(** An empty list at address 1 with [compare_gt] installed, and two
    detached nodes of value 7 at addresses 1 and 2. *)
Definition tie_mem : mem :=
  Mem (<[2 := Node NULL NULL 7]> (<[1 := Node NULL NULL 7]> ∅))
      (<[1 := List NULL NULL 0 None None (Some compare_gt)]> ∅)
      ∅ [] 4.

(** The operations of a caller on one list.  The nodes handed to the
    pushes are made by [list_node_new] or come back from a pop. *)
Inductive op : Type :=
| Node_new (v : Z)
| Rpush (node : Z)
| Lpush (node : Z)
| Rpop
| Lpop
| Remove (node : Z)
| Push_asc (node : Z)
| Push_desc (node : Z).

Definition run_op (self : Z) (o : op) : M Z :=
  match o with
  | Node_new v => list_node_new v
  | Rpush node => list_rpush self node
  | Lpush node => list_lpush self node
  | Rpop => list_rpop self
  | Lpop => list_lpop self
  | Remove node => list_remove self node
  | Push_asc node => list_push_asc self node
  | Push_desc node => list_push_desc self node
  end.

Fixpoint run_ops (self : Z) (os : list op) : M unit :=
  match os with
  | [] => ret tt
  | o :: os' => run_op self o ;;; run_ops self os'
  end.

(** The nodes of the list at [L]. *)
Definition members (m : mem) (L : Z) : list Z := (chain_of m L).*1.

(** A node that may be pushed: live and not in the chain. *)
Definition detached (m : mem) (L node : Z) : bool :=
  negb (is_null node) &&
  match nodes m !! node with Some _ => true | None => false end &&
  forallb (λ q, negb (q =? node)) (members m L).

(** One more node fits the [unsigned int] length. *)
Definition room (m : mem) (L : Z) : bool :=
  match deref (lists m) L with
  | Some lt => list_len lt + 1 <? 2 ^ 32
  | None => false
  end.

(** The obligations of the caller: a pushed node is detached, a removed
    node belongs to the list, and an ordered insertion into a non-empty list
    finds memory for its iterator. *)
Definition legal (m : mem) (L : Z) (o : op) : bool :=
  match o with
  | Node_new _ | Rpop | Lpop => true
  | Rpush node | Lpush node => detached m L node && room m L
  | Remove node => existsb (Z.eqb node) (members m L)
  | Push_asc node | Push_desc node =>
      detached m L node && room m L &&
      match members m L with
      | [] => true
      | _ => negb (Nat.eqb (budget m) 0)
      end
  end.

(** Every operation of the sequence is legal in the state it is run in (a
    run that has stopped has no further operation to check). *)
Fixpoint legal_run (self : Z) (os : list op) (m : mem) : bool :=
  match os with
  | [] => true
  | o :: os' =>
      legal m self o &&
      match run_op self o m with
      | Ok _ m' => legal_run self os' m'
      | _ => true
      end
  end.

(** An empty list at address 1, as [list_new] of list.c leaves it. *)
Definition fresh_list_mem (budget : nat) : mem :=
  Mem ∅ (<[1 := List NULL NULL 0 None None None]> ∅) ∅ [] budget.

Definition sample_ops : list op :=
  [Node_new 5; Rpush 1; Node_new 3; Push_asc 2; Node_new 9; Lpush 3;
   Node_new 4; Push_desc 4; Rpop; Remove 2; Lpop; Rpush 1].

(** Two nodes made and pushed at the tail, then the first pushed again
    while it is still in the list, and the memory this leaves from
    [fresh_list_mem 2]. *)
Definition repeated_push_ops : list op :=
  [Node_new 5; Rpush 1; Node_new 6; Rpush 2; Rpush 1].

Definition repeated_push_mem : mem :=
  Mem (<[1 := Node 2 NULL 5]> (<[2 := Node 1 1 6]> ∅))
      (<[1 := List 1 1 3 None None None]> ∅) ∅ [] 0.

(** Three values put in nodes and pushed at the tail. *)
Definition push_back_three (self a b c : Z) : M unit :=
  na <- list_node_new a ;;
  nb <- list_node_new b ;;
  nc <- list_node_new c ;;
  list_rpush self na ;;;
  list_rpush self nb ;;;
  list_rpush self nc ;;;
  ret tt.

(** A pop, and the value of the node popped. *)
Definition pop_val (pop : Z -> M Z) (self : Z) : M Z :=
  node <- pop self ;;
  get_val node.

Definition pop_three (pop : Z -> M Z) (self : Z) : M (Z * Z * Z) :=
  x <- pop_val pop self ;;
  y <- pop_val pop self ;;
  z <- pop_val pop self ;;
  ret (x, y, z).

(** An empty list at address 1 and a detached node at address 1 of the
    node region, which is in no list. *)
Definition foreign_mem : mem :=
  Mem (<[1 := Node NULL NULL 7]> ∅)
      (<[1 := List NULL NULL 0 None None None]> ∅) ∅ [] 0.

(** Two lists in one memory: [a] at address 1 (node 1) and [x, y, z] at
    address 2 (nodes 2, 3, 4).  The nodes of the second are live but in no
    chain of the first. *)
Definition two_lists_mem : mem :=
  Mem (<[1 := Node NULL NULL 10]>
         (<[2 := Node NULL 3 20]>
            (<[3 := Node 2 4 30]> (<[4 := Node 3 NULL 40]> ∅))))
      (<[1 := List 1 1 1 None None None]>
         (<[2 := List 2 4 3 None None None]> ∅))
      ∅ [] 0.

Definition release_calls (f : option release_fn) (l : list (Z * Z))
  : list (release_fn * Z) :=
  match f with
  | Some fn => (λ c, (fn, c.2)) <$> l
  | None => []
  end.

(** A list made, one value pushed, and its node removed: the calls made to
    release callbacks. *)
Definition new_push_remove (new : M Z) (v : Z) : M (list (release_fn * Z)) :=
  self <- new ;;
  node <- list_node_new v ;;
  list_rpush self node ;;;
  list_remove self node ;;;
  fun m => Ok (released m) m.

(** A list [a, b, c] at address 1: nodes 1, 2, 3 with values 10, 20, 30. *)
Definition abc_mem : mem :=
  Mem (<[1 := Node NULL 2 10]> (<[2 := Node 1 3 20]> (<[3 := Node 2 NULL 30]> ∅)))
      (<[1 := List 1 3 3 None None None]> ∅) ∅ [] 1.

(** The list [a, b, c] with a release callback installed. *)
Definition abc_free_mem : mem :=
  with_lists abc_mem (<[1 := List 1 3 3 (Some LIST_FREE) None None]> ∅).

(** The test of [list_find] on a node of value [a]: the match callback if
    there is one, else equality of the handles. *)
Definition find_hit (mt : option (Z -> Z -> Z)) (v a : Z) : bool :=
  match mt with
  | Some f => negb (f a v =? 0)
  | None => a =? v
  end.

(** The first node of a chain that passes the test, [NULL] if none does. *)
Fixpoint find_first (mt : option (Z -> Z -> Z)) (v : Z) (l : list (Z * Z)) : Z :=
  match l with
  | [] => NULL
  | (p, a) :: l' => if find_hit mt v a then p else find_first mt v l'
  end.

(** The loop [while ((node = list_iterator_next(it))) { ... }] of a caller
    that visits every node: the nodes met, in the order met. *)
Fixpoint drain (fuel : nat) (it : Z) : M (list Z) :=
  match fuel with
  | O => fun _ => Diverge
  | S fuel' =>
      node <- list_iterator_next it ;;
      if is_null node then ret []
      else
        rest <- drain fuel' it ;;
        ret (node :: rest)
  end.

(** A whole traversal of a list: the iterator made, drained and released,
    as [list_find] does it. *)
Definition traverse (self : Z) (direction : list_direction_t) : M (list Z) :=
  it <- list_iterator_new self direction ;;
  ns <- (fun m => drain (S (size (nodes m))) it m) ;;
  list_iterator_destroy it ;;;
  ret ns.

(** A traversal that starts at a given node. *)
Definition traverse_from (node : Z) (direction : list_direction_t)
  : M (list Z) :=
  it <- list_iterator_new_from_node node direction ;;
  ns <- (fun m => drain (S (size (nodes m))) it m) ;;
  list_iterator_destroy it ;;;
  ret ns.

(** The list [a, b, c] of [abc_mem] with a detached node of value 40 at
    address 4, and [budget] allocations left. *)
Definition abcd_mem (budget : nat) : mem :=
  Mem (<[4 := Node NULL NULL 40]> (nodes abc_mem)) (lists abc_mem) ∅ [] budget.

(** The same with the callback [compare_gt] installed. *)
Definition abcd_gt_mem (budget : nat) : mem :=
  Mem (<[4 := Node NULL NULL 25]> (nodes abc_mem))
      (<[1 := List 1 3 3 None None (Some compare_gt)]> ∅) ∅ [] budget.

(** The nodes returned by [k] pops in a row. *)
Fixpoint pop_n (pop : Z -> M Z) (self : Z) (k : nat) : M (list Z) :=
  match k with
  | O => ret []
  | S k' =>
      node <- pop self ;;
      rest <- pop_n pop self k' ;;
      ret (node :: rest)
  end.

(** Nodes pushed one after the other. *)
Fixpoint push_all (push : Z -> Z -> M Z) (self : Z) (ps : list Z) : M unit :=
  match ps with
  | [] => ret tt
  | p :: ps' => push self p ;;; push_all push self ps'
  end.

(** The chain entries of nodes given with their content. *)
Definition entries (pn : list (Z * list_node_t)) : list (Z * Z) :=
  (λ c, (c.1, node_val c.2)) <$> pn.

(** ** Lemmas on chains *)

Lemma hd_ptr_app l1 l2 d : hd_ptr (l1 ++ l2) d = hd_ptr l1 (hd_ptr l2 d).
Proof. destruct l1 as [|[p v] l1]; reflexivity. Qed.

Lemma last_ptr_nil d : last_ptr [] d = d.
Proof. reflexivity. Qed.

Lemma last_ptr_snoc l p v d : last_ptr (l ++ [(p, v)]) d = p.
Proof. unfold last_ptr. rewrite last_snoc. reflexivity. Qed.

Lemma last_ptr_cons_snoc c l p v d : last_ptr (c :: l ++ [(p, v)]) d = p.
Proof. apply (last_ptr_snoc (c :: l)). Qed.

Lemma last_ptr_app l1 l2 d : last_ptr (l1 ++ l2) d = last_ptr l2 (last_ptr l1 d).
Proof.
  destruct l2 as [|c l2] using rev_ind.
  - rewrite app_nil_r. reflexivity.
  - destruct c as [p v]. rewrite app_assoc, !last_ptr_snoc. reflexivity.
Qed.

Lemma last_ptr_cons c l d : last_ptr (c :: l) d = last_ptr l c.1.
Proof. destruct c as [p v]. apply (last_ptr_app [(p, v)] l d). Qed.

Lemma cells_app prv l1 l2 nx :
  cells prv (l1 ++ l2) nx =
  cells prv l1 (hd_ptr l2 nx) ++ cells (last_ptr l1 prv) l2 nx.
Proof.
  revert prv. induction l1 as [|[p v] l1 IH]; intros prv; [reflexivity|].
  cbn [cells app]. rewrite IH, hd_ptr_app, last_ptr_cons. reflexivity.
Qed.

Lemma cells_fst prv l nx : (cells prv l nx).*1 = l.*1.
Proof.
  revert prv. induction l as [|[p v] l IH]; intros prv; [reflexivity|].
  cbn. by rewrite IH.
Qed.

Lemma dll_nil h prv nx : dll h prv [] nx.
Proof. constructor. Qed.

Lemma dll_cons h prv p v l nx :
  dll h prv ((p, v) :: l) nx ↔
  p ≠ NULL ∧ h !! p = Some (Node prv (hd_ptr l nx) v) ∧ dll h p l nx.
Proof.
  unfold dll. cbn [cells]. rewrite Forall_cons. unfold cell_in at 1. cbn.
  tauto.
Qed.

Lemma dll_app h prv l1 l2 nx :
  dll h prv (l1 ++ l2) nx ↔
  dll h prv l1 (hd_ptr l2 nx) ∧ dll h (last_ptr l1 prv) l2 nx.
Proof. unfold dll. rewrite cells_app. apply Forall_app. Qed.

Lemma dll_snoc h prv l p v nx :
  dll h prv (l ++ [(p, v)]) nx ↔
  dll h prv l p ∧ p ≠ NULL ∧ h !! p = Some (Node (last_ptr l prv) nx v).
Proof. rewrite dll_app, dll_cons. cbn. pose proof (dll_nil h p nx). tauto. Qed.

(** A chain only depends on the nodes it names. *)
Lemma dll_frame h h' prv l nx :
  (∀ p, p ∈ l.*1 → h' !! p = h !! p) → dll h prv l nx → dll h' prv l nx.
Proof.
  unfold dll. rewrite <- (cells_fst prv l nx), !Forall_forall.
  intros Hsame Hd [p n] Hin. destruct (Hd _ Hin) as [Hp Hn].
  split; [exact Hp|]. cbn in *. rewrite Hsame; [exact Hn|].
  apply list_elem_of_fmap. by exists (p, n).
Qed.

Lemma dll_live h prv l nx p :
  dll h prv l nx → p ∈ l.*1 → p ≠ NULL ∧ is_Some (h !! p).
Proof.
  unfold dll. rewrite <- (cells_fst prv l nx), Forall_forall.
  intros Hd Hin. apply list_elem_of_fmap in Hin as [[q n] [-> Hin]].
  destruct (Hd _ Hin) as [Hp Hn]. cbn in *. eauto.
Qed.

Lemma dll_lookup h prv l1 p v l2 nx :
  dll h prv (l1 ++ (p, v) :: l2) nx →
  p ≠ NULL ∧ h !! p = Some (Node (last_ptr l1 prv) (hd_ptr l2 nx) v).
Proof. rewrite dll_app, dll_cons. tauto. Qed.

(** A chain is empty or ends in a node whose [next] is the exit link. *)
Lemma dll_rcons_cases h prv l nx :
  dll h prv l nx → l = [] ∨ ∃ l0 p v, l = l0 ++ [(p, v)] ∧ dll h prv l0 p ∧
    h !! p = Some (Node (last_ptr l0 prv) nx v) ∧ p ≠ NULL.
Proof.
  destruct l as [|[p v] l0 _] using rev_ind; [by left|].
  rewrite dll_snoc. intros (? & ? & ?). right. by exists l0, p, v.
Qed.

(** ** Running the code step by step *)

Lemma deref_ne {V} (h : gmap Z V) p : p ≠ NULL → deref h p = h !! p.
Proof. intros Hp. unfold deref. by rewrite (proj2 (Z.eqb_neq p NULL) Hp). Qed.

Lemma deref_null {V} (h : gmap Z V) : deref h NULL = None.
Proof. reflexivity. Qed.

Lemma deref_Some {V} (h : gmap Z V) p v :
  deref h p = Some v ↔ p ≠ NULL ∧ h !! p = Some v.
Proof.
  unfold deref. destruct (Z.eqb_spec p NULL) as [->|Hp]; [|tauto].
  split; [discriminate|]. intros [[] _]. reflexivity.
Qed.

Lemma is_null_ne p : p ≠ NULL → is_null p = false.
Proof. intros Hp. by apply Z.eqb_neq. Qed.

Lemma wrap32_small z : 0 ≤ z < 2 ^ 32 → wrap32 z = z.
Proof. intros. unfold wrap32. by apply Z.mod_small. Qed.

Lemma bind_ok {A B} (c : M A) (k : A → M B) m a m1 r :
  c m = Ok a m1 → k a m1 = r → bind c k m = r.
Proof. unfold bind. intros -> ->. reflexivity. Qed.

Lemma bind_bind_ok {A B C} (c : M A) (f : A → M B) (g : B → M C) m a m1 r :
  bind c f m = Ok a m1 → g a m1 = r → bind c (λ x, bind (f x) g) m = r.
Proof.
  unfold bind. destruct (c m) as [x m'| |]; try discriminate.
  intros -> ->. reflexivity.
Qed.

Section Primitives.
Variables (m : mem) (p : Z).
Hypothesis Hp : p ≠ NULL.

Section Node.
Variable n : list_node_t.
Hypothesis Hn : nodes m !! p = Some n.

Lemma get_node_ok : get_node p m = Ok n m.
Proof. unfold get_node. by rewrite deref_ne, Hn. Qed.

Lemma put_node_ok n' :
  put_node p n' m = Ok tt (with_nodes m (<[p := n']> (nodes m))).
Proof. unfold put_node. by rewrite deref_ne, Hn. Qed.

Lemma get_prev_ok : get_prev p m = Ok (node_prev n) m.
Proof. unfold get_prev. by eapply bind_ok; [apply get_node_ok|]. Qed.

Lemma get_next_ok : get_next p m = Ok (node_next n) m.
Proof. unfold get_next. by eapply bind_ok; [apply get_node_ok|]. Qed.

Lemma get_val_ok : get_val p m = Ok (node_val n) m.
Proof. unfold get_val. by eapply bind_ok; [apply get_node_ok|]. Qed.

Lemma set_prev_ok x :
  set_prev p x m =
  Ok tt (with_nodes m (<[p := Node x (node_next n) (node_val n)]> (nodes m))).
Proof.
  unfold set_prev. by eapply bind_ok; [apply get_node_ok|apply put_node_ok].
Qed.

Lemma set_next_ok x :
  set_next p x m =
  Ok tt (with_nodes m (<[p := Node (node_prev n) x (node_val n)]> (nodes m))).
Proof.
  unfold set_next. by eapply bind_ok; [apply get_node_ok|apply put_node_ok].
Qed.

Lemma set_val_ok x :
  set_val p x m =
  Ok tt (with_nodes m (<[p := Node (node_prev n) (node_next n) x]> (nodes m))).
Proof.
  unfold set_val. by eapply bind_ok; [apply get_node_ok|apply put_node_ok].
Qed.

Lemma free_node_ok : free_node p m = Ok tt (with_nodes m (delete p (nodes m))).
Proof. unfold free_node. by rewrite (is_null_ne p Hp : (p =? NULL) = false), Hn. Qed.
End Node.

Section ListObj.
Variable l : list_t.
Hypothesis Hl : lists m !! p = Some l.

Lemma get_list_ok : get_list p m = Ok l m.
Proof. unfold get_list. by rewrite deref_ne, Hl. Qed.

Lemma put_list_ok l' :
  put_list p l' m = Ok tt (with_lists m (<[p := l']> (lists m))).
Proof. unfold put_list. by rewrite deref_ne, Hl. Qed.

Lemma get_head_ok : get_head p m = Ok (list_head l) m.
Proof. unfold get_head. by eapply bind_ok; [apply get_list_ok|]. Qed.

Lemma get_tail_ok : get_tail p m = Ok (list_tail l) m.
Proof. unfold get_tail. by eapply bind_ok; [apply get_list_ok|]. Qed.

Lemma get_len_ok : get_len p m = Ok (list_len l) m.
Proof. unfold get_len. by eapply bind_ok; [apply get_list_ok|]. Qed.

Lemma get_free_ok : get_free p m = Ok (list_free l) m.
Proof. unfold get_free. by eapply bind_ok; [apply get_list_ok|]. Qed.

Lemma get_match_ok : get_match p m = Ok (list_match l) m.
Proof. unfold get_match. by eapply bind_ok; [apply get_list_ok|]. Qed.

Lemma get_compare_ok : get_compare p m = Ok (list_compare l) m.
Proof. unfold get_compare. by eapply bind_ok; [apply get_list_ok|]. Qed.

Lemma set_head_ok x :
  set_head p x m =
  Ok tt (with_lists m
           (<[p := List x (list_tail l) (list_len l) (list_free l)
                     (list_match l) (list_compare l)]> (lists m))).
Proof.
  unfold set_head. by eapply bind_ok; [apply get_list_ok|apply put_list_ok].
Qed.

Lemma set_tail_ok x :
  set_tail p x m =
  Ok tt (with_lists m
           (<[p := List (list_head l) x (list_len l) (list_free l)
                     (list_match l) (list_compare l)]> (lists m))).
Proof.
  unfold set_tail. by eapply bind_ok; [apply get_list_ok|apply put_list_ok].
Qed.

Lemma set_len_ok x :
  set_len p x m =
  Ok tt (with_lists m
           (<[p := List (list_head l) (list_tail l) x (list_free l)
                     (list_match l) (list_compare l)]> (lists m))).
Proof.
  unfold set_len. by eapply bind_ok; [apply get_list_ok|apply put_list_ok].
Qed.

Lemma set_free_ok x :
  set_free p x m =
  Ok tt (with_lists m
           (<[p := List (list_head l) (list_tail l) (list_len l) x
                     (list_match l) (list_compare l)]> (lists m))).
Proof.
  unfold set_free. by eapply bind_ok; [apply get_list_ok|apply put_list_ok].
Qed.

Lemma set_match_ok x :
  set_match p x m =
  Ok tt (with_lists m
           (<[p := List (list_head l) (list_tail l) (list_len l) (list_free l)
                     x (list_compare l)]> (lists m))).
Proof.
  unfold set_match. by eapply bind_ok; [apply get_list_ok|apply put_list_ok].
Qed.

Lemma set_compare_ok x :
  set_compare p x m =
  Ok tt (with_lists m
           (<[p := List (list_head l) (list_tail l) (list_len l) (list_free l)
                     (list_match l) x]> (lists m))).
Proof.
  unfold set_compare. by eapply bind_ok; [apply get_list_ok|apply put_list_ok].
Qed.

Lemma free_list_ok : free_list p m = Ok tt (with_lists m (delete p (lists m))).
Proof. unfold free_list. by rewrite (is_null_ne p Hp : (p =? NULL) = false), Hl. Qed.
End ListObj.

Section IterObj.
Variable i : list_iterator_t.
Hypothesis Hi : iters m !! p = Some i.

Lemma get_iter_ok : get_iter p m = Ok i m.
Proof. unfold get_iter. by rewrite deref_ne, Hi. Qed.

Lemma put_iter_ok i' :
  put_iter p i' m = Ok tt (with_iters m (<[p := i']> (iters m))).
Proof. unfold put_iter. by rewrite deref_ne, Hi. Qed.

Lemma get_it_next_ok : get_it_next p m = Ok (it_next i) m.
Proof. unfold get_it_next. by eapply bind_ok; [apply get_iter_ok|]. Qed.

Lemma get_it_direction_ok : get_it_direction p m = Ok (it_direction i) m.
Proof.
  unfold get_it_direction. by eapply bind_ok; [apply get_iter_ok|].
Qed.

Lemma set_it_next_ok x :
  set_it_next p x m =
  Ok tt (with_iters m (<[p := Iter x (it_direction i)]> (iters m))).
Proof.
  unfold set_it_next. by eapply bind_ok; [apply get_iter_ok|apply put_iter_ok].
Qed.

Lemma set_it_direction_ok x :
  set_it_direction p x m =
  Ok tt (with_iters m (<[p := Iter (it_next i) x]> (iters m))).
Proof.
  unfold set_it_direction.
  by eapply bind_ok; [apply get_iter_ok|apply put_iter_ok].
Qed.

Lemma free_iter_ok : free_iter p m = Ok tt (with_iters m (delete p (iters m))).
Proof. unfold free_iter. by rewrite (is_null_ne p Hp : (p =? NULL) = false), Hi. Qed.
End IterObj.
End Primitives.

(** Projections of a memory written with its fields. *)
Ltac mem_simpl :=
  unfold with_nodes, with_lists, with_iters, with_released, with_budget in *;
  cbn [nodes lists iters released budget with_nodes with_lists with_iters
       with_released with_budget node_prev node_next node_val list_head
       list_tail list_len list_free list_match list_compare it_next
       it_direction cb_free cb_match cb_compare fst snd] in *.

(** Side conditions: disequalities of pointers and bounds on lengths. *)
Ltac solve_ne :=
  first [assumption | congruence | lia | rewrite ?wrap32_small by lia; lia].

(** A read of a memory that is a stack of writes. *)
Ltac solve_lookup :=
  mem_simpl;
  repeat first [rewrite lookup_insert_eq | rewrite lookup_insert_ne by solve_ne];
  first [eassumption | reflexivity].

(** One field read or write, or one release. *)
Ltac prim :=
  first
    [ eapply get_prev_ok | eapply get_next_ok | eapply get_val_ok
    | eapply set_prev_ok | eapply set_next_ok | eapply set_val_ok
    | eapply free_node_ok
    | eapply get_head_ok | eapply get_tail_ok | eapply get_len_ok
    | eapply get_free_ok | eapply get_match_ok | eapply get_compare_ok
    | eapply set_head_ok | eapply set_tail_ok | eapply set_len_ok
    | eapply set_free_ok | eapply set_match_ok | eapply set_compare_ok
    | eapply free_list_ok
    | eapply get_it_next_ok | eapply get_it_direction_ok
    | eapply set_it_next_ok | eapply set_it_direction_ok | eapply free_iter_ok ];
  [ solve_ne | solve_lookup ].

(** The value of a test of the code. *)
Ltac solve_bool :=
  unfold is_null;
  repeat first
    [ rewrite negb_true_iff | rewrite negb_false_iff
    | rewrite orb_false_iff | rewrite orb_true_iff ];
  first
    [ apply Z.eqb_eq; solve_ne
    | apply Z.eqb_neq; solve_ne
    | apply Z.ltb_lt; lia
    | apply Z.ltb_ge; lia ].

(** [run] executes the code of a goal [c m = r] statement by statement,
    as far as the tests it meets can be decided. *)
Ltac run :=
  lazymatch goal with
  | |- ?c ?m = _ =>
      tryif has_evar m then idtac
      else
        lazymatch c with
        | bind _ _ => eapply bind_ok; [ run | mem_simpl; run ]
        | ret _ => reflexivity
        | call_release _ _ => reflexivity
        | release_val _ _ => unfold release_val; run
        | (if ?b then _ else _) =>
            first
              [ replace b with true by (symmetry; solve_bool); run
              | replace b with false by (symmetry; solve_bool); run
              | idtac ]
        | _ => first [ prim | idtac ]
        end
  end.

(** A write over a write of the same object. *)
Ltac heap_norm := mem_simpl; rewrite ?insert_insert_eq.

Lemma NoDup_mid {A} (l1 l2 : list A) a :
  NoDup (l1 ++ a :: l2) ↔ (a ∉ l1) ∧ (a ∉ l2) ∧ NoDup (l1 ++ l2).
Proof.
  rewrite <- (Permutation_middle l1 l2 a), NoDup_cons, not_elem_of_app. tauto.
Qed.

Lemma NoDup_snoc {A} (l : list A) a : NoDup (l ++ [a]) ↔ (a ∉ l) ∧ NoDup l.
Proof.
  rewrite NoDup_mid, app_nil_r. split; [tauto|].
  intros [? ?]. split_and!; try done. apply not_elem_of_nil.
Qed.

(** The addresses of a chain given by parts. *)
Ltac fst_norm :=
  rewrite ?fmap_app, ?fmap_cons, ?fmap_nil in *; cbn [fst snd] in *.

(** What [NoDup] and non-membership of a chain given by parts say of each
    part. *)
Ltac facts :=
  fst_norm;
  repeat match goal with
    | H : NoDup ((_ ++ _) ++ _) |- _ => rewrite <- app_assoc in H; cbn [app] in H
    | H : NoDup (_ ++ [_]) |- _ => apply NoDup_snoc in H as [? ?]
    | H : NoDup (_ ++ _ :: _) |- _ => apply NoDup_mid in H as (? & ? & ?)
    | H : NoDup (_ :: _) |- _ => apply NoDup_cons in H as [? ?]
    | H : _ ∉ _ ++ _ |- _ => apply not_elem_of_app in H as [? ?]
    | H : _ ∉ _ :: _ |- _ => apply not_elem_of_cons in H as [? ?]
    | H : _ ∉ [] |- _ => clear H
    | H : NoDup [] |- _ => clear H
    end.

Ltac list_norm :=
  rewrite ?app_nil_r, ?hd_ptr_app, ?last_ptr_snoc, ?last_ptr_cons_snoc,
    ?last_ptr_app, ?length_app;
  cbn [length hd_ptr last_ptr last fst snd].

Lemma dll_insert_frame h prv l nx p n :
  p ∉ l.*1 → dll h prv l nx → dll (<[p := n]> h) prv l nx.
Proof.
  intros Hp. apply dll_frame. intros q Hq. apply lookup_insert_ne. by intros ->.
Qed.

Lemma dll_delete_frame h prv l nx p :
  p ∉ l.*1 → dll h prv l nx → dll (delete p h) prv l nx.
Proof.
  intros Hp. apply dll_frame. intros q Hq. apply lookup_delete_ne. by intros ->.
Qed.

(** A part of the chain no write has touched. *)
Ltac frame_tac :=
  repeat first [apply dll_insert_frame; [assumption|]
               | apply dll_delete_frame; [assumption|]];
  try assumption.

Ltac lookup_tac :=
  repeat first
    [ rewrite lookup_insert_eq
    | rewrite lookup_insert_ne by solve_ne
    | rewrite lookup_delete_ne by solve_ne ];
  try done.

Ltac record_tac :=
  list_norm; rewrite ?last_ptr_cons; cbn [fst hd_ptr length]; lookup_tac;
  rewrite ?wrap32_small by lia; f_equal; f_equal; first [done | lia].

Ltac nodup_tac :=
  fst_norm; rewrite ?app_nil_r, <- ?app_assoc; cbn [app];
  repeat first
    [ apply NoDup_nil_2
    | assumption
    | apply NoDup_snoc; split
    | apply NoDup_mid; split_and!
    | apply NoDup_cons; split
    | apply not_elem_of_app; split
    | apply not_elem_of_cons; split
    | apply not_elem_of_nil
    | solve_ne ].

Ltac dll_tac :=
  rewrite ?app_nil_r, ?dll_app, ?dll_snoc, ?dll_cons, ?last_ptr_snoc,
    ?last_ptr_cons;
  cbn [hd_ptr last_ptr last fst];
  split_and?;
  lazymatch goal with
  | |- dll _ _ [] _ => apply dll_nil
  | |- dll _ _ _ _ => frame_tac
  | |- _ !! _ = _ => lookup_tac
  | |- _ => done
  end.

(** The components of [is_list] and of [frame] after a run. *)
Ltac finish :=
  lazymatch goal with
  | |- _ !! _ = Some (List _ _ _ _ _ _) => record_tac
  | |- _ < _ => rewrite ?length_app in *; cbn [length] in *; lia
  | |- NoDup _ => nodup_tac
  | |- dll _ _ _ _ => dll_tac
  | |- _ !! _ = None => lookup_tac; apply lookup_delete_eq
  | |- _ !! _ = Some _ => lookup_tac
  | |- ∀ q, _ ∉ _ → _ => intros ? ?; facts; lookup_tac
  | |- _ => try done
  end.

(** ** What each operation does to a chain *)

Lemma list_rpush_spec m L cb l p n :
  is_list m L cb l → p ≠ NULL → nodes m !! p = Some n → p ∉ l.*1 →
  Z.of_nat (length l) + 1 < 2 ^ 32 →
  ∃ m', list_rpush L p m = Ok p m' ∧
        is_list m' L cb (l ++ [(p, node_val n)]) ∧
        frame m m' (p :: l.*1).
Proof.
  intros (HL & Hlt & Hlen & Hnd & Hd) Hp Hn Hnotin Hroom.
  destruct m as [nd ls its rel b]. mem_simpl.
  unfold list_rpush, is_list, frame. rewrite !is_null_ne by assumption. cbn [orb].
  destruct (dll_rcons_cases _ _ _ _ Hd) as [-> | (l0 & t & tv & -> & Hd0 & Ht & Htn)].
  - cbn in Hlt. eexists. split; [run|]. heap_norm.
    split_and!; try done.
    + cbn. rewrite lookup_insert_eq. rewrite wrap32_small by lia. done.
    + nodup_tac.
    + cbn. apply dll_cons. rewrite lookup_insert_eq. split_and!; try done. apply dll_nil.
    + intros q Hq. facts. lookup_tac.
  - rewrite length_app in *. cbn [length] in *. rewrite last_ptr_snoc, hd_ptr_app in Hlt.
    facts.
    eexists. split; [run|]. heap_norm.
    split_and!; try done.
    + record_tac.
    + list_norm. lia.
    + nodup_tac.
    + rewrite !dll_snoc, last_ptr_snoc. split_and!; try done.
      * frame_tac.
      * lookup_tac.
      * lookup_tac.
    + intros q Hq. facts. lookup_tac.
Qed.

Lemma list_lpush_spec m L cb l p n :
  is_list m L cb l → p ≠ NULL → nodes m !! p = Some n → p ∉ l.*1 →
  Z.of_nat (length l) + 1 < 2 ^ 32 →
  ∃ m', list_lpush L p m = Ok p m' ∧
        is_list m' L cb ((p, node_val n) :: l) ∧
        frame m m' (p :: l.*1).
Proof.
  intros (HL & Hlt & Hlen & Hnd & Hd) Hp Hn Hnotin Hroom.
  destruct m as [nd ls its rel b]. mem_simpl.
  unfold list_lpush, is_list, frame. rewrite !is_null_ne by assumption. cbn [orb].
  destruct l as [|[h hv] l'].
  - cbn in Hlt. eexists. split; [run|]. heap_norm.
    split_and!; try done.
    + cbn. rewrite lookup_insert_eq. rewrite wrap32_small by lia. done.
    + nodup_tac.
    + cbn. apply dll_cons. rewrite lookup_insert_eq. split_and!; try done. apply dll_nil.
    + intros q Hq. facts. lookup_tac.
  - apply dll_cons in Hd as (Hh & Hhn & Hd'). cbn [length hd_ptr] in *.
    rewrite last_ptr_cons in Hlt. cbn [fst] in Hlt. facts.
    eexists. split; [run|]. heap_norm.
    split_and!; try done.
    + record_tac.
    + cbn [length]. lia.
    + nodup_tac.
    + rewrite !dll_cons. cbn [hd_ptr]. split_and!; try done.
      * lookup_tac.
      * lookup_tac.
      * frame_tac.
    + intros q Hq. facts. lookup_tac.
Qed.

Lemma list_rpop_empty m L cb : is_list m L cb [] → list_rpop L m = Ok NULL m.
Proof.
  intros (HL & Hlt & _). unfold list_rpop. rewrite is_null_ne by assumption.
  cbn in Hlt. run.
Qed.

Lemma list_lpop_empty m L cb : is_list m L cb [] → list_lpop L m = Ok NULL m.
Proof.
  intros (HL & Hlt & _). unfold list_lpop. rewrite is_null_ne by assumption.
  cbn in Hlt. run.
Qed.

Lemma list_rpop_spec m L cb l p v :
  is_list m L cb (l ++ [(p, v)]) →
  ∃ m', list_rpop L m = Ok p m' ∧
        is_list m' L cb l ∧
        nodes m' !! p = Some (Node NULL NULL v) ∧
        frame m m' (p :: l.*1).
Proof.
  intros (HL & Hlt & Hlen & Hnd & Hd).
  destruct m as [nd ls its rel b]. mem_simpl.
  unfold list_rpop, is_list, frame. rewrite !is_null_ne by assumption.
  apply dll_snoc in Hd as (Hd & Hp & Hn).
  rewrite length_app, last_ptr_snoc, hd_ptr_app in *. cbn [length hd_ptr] in *.
  destruct (dll_rcons_cases _ _ _ _ Hd) as [-> | (l0 & s & sv & -> & Hd0 & Hs & Hsn)].
  - cbn in Hlt, Hn. eexists. split; [run|]. heap_norm.
    split_and!; try done.
    + cbn. lookup_tac.
    + nodup_tac.
    + apply dll_nil.
    + lookup_tac.
    + intros q Hq. facts. lookup_tac.
  - rewrite length_app, last_ptr_snoc, hd_ptr_app in *. cbn [length hd_ptr] in *.
    facts.
    eexists. split; [run|]. heap_norm. split_and!; try done.
    + record_tac.
    + lia.
    + nodup_tac.
    + rewrite dll_snoc. split_and!; try done.
      * frame_tac.
      * lookup_tac.
    + lookup_tac.
    + intros q Hq. facts. lookup_tac.
Qed.

Lemma list_lpop_spec m L cb l p v :
  is_list m L cb ((p, v) :: l) →
  ∃ m', list_lpop L m = Ok p m' ∧
        is_list m' L cb l ∧
        nodes m' !! p = Some (Node NULL NULL v) ∧
        frame m m' (p :: l.*1).
Proof.
  intros (HL & Hlt & Hlen & Hnd & Hd).
  destruct m as [nd ls its rel b]. mem_simpl.
  unfold list_lpop, is_list, frame. rewrite !is_null_ne by assumption.
  apply dll_cons in Hd as (Hp & Hn & Hd).
  rewrite last_ptr_cons in Hlt. cbn [length hd_ptr fst] in *.
  destruct l as [|[s sv] l'].
  - cbn in Hlt, Hn. eexists. split; [run|]. heap_norm.
    split_and!; try done.
    + cbn. lookup_tac.
    + nodup_tac.
    + apply dll_nil.
    + lookup_tac.
    + intros q Hq. facts. lookup_tac.
  - apply dll_cons in Hd as (Hs & Hsn & Hd). cbn [length hd_ptr] in *.
    facts.
    eexists. split; [run|]. heap_norm. split_and!; try done.
    + record_tac.
    + lia.
    + nodup_tac.
    + rewrite dll_cons. split_and!; try done.
      * lookup_tac.
      * frame_tac.
    + lookup_tac.
    + intros q Hq. facts. lookup_tac.
Qed.

Lemma list_remove_spec m L cb l1 p v l2 :
  is_list m L cb (l1 ++ (p, v) :: l2) →
  ∃ m', list_remove L p m = Ok 0 m' ∧
        is_list m' L cb (l1 ++ l2) ∧
        nodes m' !! p = None ∧
        released m' =
          released m ++ match cb_free cb with Some f => [(f, v)] | None => [] end ∧
        budget m' = budget m ∧ iters m' = iters m ∧
        ∀ q, q ∉ p :: (l1 ++ l2).*1 → nodes m' !! q = nodes m !! q.
Proof.
  intros (HL & Hlt & Hlen & Hnd & Hd).
  destruct m as [nd ls its rel b]. mem_simpl.
  unfold list_remove, is_list.
  apply dll_app in Hd as (Hd1 & Hd2). apply dll_cons in Hd2 as (Hp & Hn & Hd2).
  rewrite !is_null_ne by assumption. cbn [orb].
  rewrite last_ptr_app, hd_ptr_app, length_app in Hlt.
  rewrite last_ptr_cons in Hlt. rewrite length_app in Hlen.
  cbn [length hd_ptr fst] in *.
  assert (∀ r : list (release_fn * Z), r ++ [] = r) as Hnil by apply app_nil_r.
  destruct (dll_rcons_cases _ _ _ _ Hd1)
    as [-> | (l0 & r & rv & -> & Hd0 & Hr & Hrn)];
    destruct l2 as [|[s sv] l2'];
    try (apply dll_cons in Hd2 as (Hs & Hsn & Hd2));
    rewrite ?length_app, ?last_ptr_snoc, ?hd_ptr_app, ?last_ptr_cons in *;
    cbn [length hd_ptr last_ptr last app fst] in *; facts;
    destruct cb as [[f|] mt c]; mem_simpl;
    (eexists; split; [run|]; heap_norm; rewrite ?Hnil; split_and!; finish).
Qed.

(** ** Allocation *)

Lemma fresh_addr_spec {V} (h : gmap Z V) :
  0 < fresh_addr h ∧ ∀ k, is_Some (h !! k) → k < fresh_addr h.
Proof.
  unfold fresh_addr.
  apply (map_fold_weak_ind
           (λ r (m : gmap Z V), 0 < 1 + r ∧ ∀ k, is_Some (m !! k) → k < 1 + r)).
  - split; [lia|]. intros k [x Hx]. by rewrite lookup_empty in Hx.
  - intros i x m r Hi [Hpos Hall]. split; [lia|].
    intros k Hk. destruct (decide (k = i)) as [->|Hne]; [lia|].
    rewrite lookup_insert_ne in Hk by done. specialize (Hall k Hk). lia.
Qed.

Lemma fresh_addr_nonnull {V} (h : gmap Z V) : fresh_addr h ≠ NULL.
Proof. pose proof (fresh_addr_spec h) as [? _]. unfold NULL. lia. Qed.

Lemma fresh_addr_fresh {V} (h : gmap Z V) : h !! fresh_addr h = None.
Proof.
  pose proof (fresh_addr_spec h) as [_ Hall].
  destruct (h !! fresh_addr h) eqn:E; [|done].
  specialize (Hall (fresh_addr h)). rewrite E in Hall.
  specialize (Hall (ltac:(eauto))). lia.
Qed.

Lemma list_node_new_null m : list_node_new NULL m = Ok NULL m.
Proof. reflexivity. Qed.

Lemma list_node_new_exhausted v m : budget m = O → list_node_new v m = Ok NULL m.
Proof.
  intros Hb. unfold list_node_new. destruct (is_null v); [done|].
  unfold bind, malloc_node. rewrite Hb. reflexivity.
Qed.

Lemma list_node_new_spec v m b :
  v ≠ NULL → budget m = S b →
  list_node_new v m =
  Ok (fresh_addr (nodes m))
     (Mem (<[fresh_addr (nodes m) := Node NULL NULL v]> (nodes m)) (lists m)
        (iters m) (released m) b).
Proof.
  intros Hv Hb. unfold list_node_new. rewrite is_null_ne by done.
  pose proof (fresh_addr_nonnull (nodes m)) as Hp.
  eapply bind_ok; [unfold malloc_node; rewrite Hb; reflexivity|].
  cbn beta zeta. rewrite is_null_ne by done.
  destruct m as [nd ls its rel b0]. mem_simpl.
  set (p := fresh_addr nd) in *.
  etransitivity; [run|]. heap_norm. reflexivity.
Qed.

Lemma list_new_exhausted m : budget m = O → list_new m = Ok NULL m.
Proof. intros Hb. unfold list_new, bind, malloc_list. rewrite Hb. reflexivity. Qed.

Lemma list_new_spec m b :
  budget m = S b →
  list_new m =
  Ok (fresh_addr (lists m))
     (Mem (nodes m)
        (<[fresh_addr (lists m) := List NULL NULL 0 None None None]> (lists m))
        (iters m) (released m) b).
Proof.
  intros Hb. unfold list_new.
  pose proof (fresh_addr_nonnull (lists m)) as Hp.
  eapply bind_ok; [unfold malloc_list; rewrite Hb; reflexivity|].
  cbn beta zeta. rewrite is_null_ne by done.
  destruct m as [nd ls its rel b0]. mem_simpl.
  set (p := fresh_addr ls) in *.
  etransitivity; [run|]. heap_norm. reflexivity.
Qed.

Lemma list_new_inline_spec m b :
  budget m = S b →
  list_new_inline m =
  Ok (fresh_addr (lists m))
     (Mem (nodes m)
        (<[fresh_addr (lists m) := List NULL NULL 0 (Some LIST_FREE) None None]>
           (lists m))
        (iters m) (released m) b).
Proof.
  intros Hb. unfold list_new_inline.
  pose proof (fresh_addr_nonnull (lists m)) as Hp.
  eapply bind_ok; [unfold malloc_list; rewrite Hb; reflexivity|].
  cbn beta zeta. rewrite is_null_ne by done.
  destruct m as [nd ls its rel b0]. mem_simpl.
  set (p := fresh_addr ls) in *.
  etransitivity; [run|]. heap_norm. reflexivity.
Qed.

(** A list fresh from [list_new] is an empty chain. *)
Lemma is_list_new m L cb :
  L ≠ NULL →
  lists m !! L = Some (List NULL NULL 0 (cb_free cb) (cb_match cb) (cb_compare cb)) →
  is_list m L cb [].
Proof.
  intros HL Hlt. split_and!; try done.
  - constructor.
  - apply dll_nil.
Qed.

(** ** Iterators *)

Lemma list_iterator_new_spec m L lt d b :
  L ≠ NULL → lists m !! L = Some lt → budget m = S b →
  list_iterator_new L d m =
  Ok (fresh_addr (iters m))
     (Mem (nodes m) (lists m)
        (<[fresh_addr (iters m) :=
             Iter (match d with
                   | LIST_HEAD => list_head lt
                   | LIST_TAIL => list_tail lt
                   end) d]> (iters m))
        (released m) b).
Proof.
  intros HL Hlt Hb. unfold list_iterator_new, list_iterator_new_from_node.
  pose proof (fresh_addr_nonnull (iters m)) as Hp.
  destruct d;
    (eapply bind_ok; [run|]; cbn beta;
     (eapply bind_ok; [unfold malloc_iter; rewrite Hb; reflexivity|]);
     cbn beta zeta; rewrite is_null_ne by done;
     destruct m as [nd ls its rel b0]; mem_simpl;
     set (p := fresh_addr its) in *;
     (etransitivity; [run|]); heap_norm; reflexivity).
Qed.

(** With the allocator exhausted the iterator is null, and the next use of
    it is a null dereference: the callers do not test it. *)
Lemma list_iterator_new_exhausted m L lt d :
  L ≠ NULL → lists m !! L = Some lt → budget m = O →
  list_iterator_new L d m = Ok NULL m.
Proof.
  intros HL Hlt Hb. unfold list_iterator_new, list_iterator_new_from_node.
  destruct d;
    (eapply bind_ok; [run|]; cbn beta;
     unfold bind, malloc_iter; rewrite Hb; reflexivity).
Qed.

Lemma list_iterator_next_end m it d :
  it ≠ NULL → iters m !! it = Some (Iter NULL d) →
  list_iterator_next it m = Ok NULL m.
Proof. intros Hit Hi. unfold list_iterator_next. run. Qed.

Lemma list_iterator_next_step m it d cur n :
  it ≠ NULL → iters m !! it = Some (Iter cur d) →
  cur ≠ NULL → nodes m !! cur = Some n →
  list_iterator_next it m =
  Ok cur (with_iters m
            (<[it := Iter (match d with
                           | LIST_HEAD => node_next n
                           | LIST_TAIL => node_prev n
                           end) d]> (iters m))).
Proof.
  intros Hit Hi Hcur Hn. unfold list_iterator_next.
  destruct m as [nd ls its rel b]. mem_simpl. destruct d; run.
Qed.

Lemma list_iterator_destroy_spec m it i :
  it ≠ NULL → iters m !! it = Some i →
  list_iterator_destroy it m = Ok tt (with_iters m (delete it (iters m))).
Proof. intros. unfold list_iterator_destroy. by eapply free_iter_ok. Qed.

Lemma nth_ptr_lookup l k p :
  l.*1 !! k = Some p → nth_ptr l k = p.
Proof.
  unfold nth_ptr. revert k. induction l as [|[q v] l IH]; intros [|k]; try done.
  - cbn. congruence.
  - cbn. apply IH.
Qed.

Lemma nth_ptr_ge l k : (length l ≤ k)%nat → nth_ptr l k = NULL.
Proof. intros Hk. unfold nth_ptr. by rewrite drop_ge. Qed.

Section Walk.
Variables (nd : gmap Z list_node_t) (ls : gmap Z list_t)
  (rel : list (release_fn * Z)) (b : nat) (it : Z).
Hypothesis Hit : it ≠ NULL.

(** A forward iterator standing at the head of [l] yields, after [k]
    further steps, the node at offset [k]. *)
Lemma walk_forward k : ∀ l prv its,
  dll nd prv l NULL →
  its !! it = Some (Iter (hd_ptr l NULL) LIST_HEAD) →
  ∃ i', (node <- list_iterator_next it ;; at_loop k it node)
          (Mem nd ls its rel b) =
        Ok (nth_ptr l k) (Mem nd ls (<[it := i']> its) rel b).
Proof.
  induction k as [|k IH]; intros l prv its Hd Hi.
  - destruct l as [|[p v] l'].
    + exists (Iter NULL LIST_HEAD). rewrite insert_id by done.
      eapply bind_ok; [by eapply list_iterator_next_end|]. reflexivity.
    + apply dll_cons in Hd as (Hp & Hn & Hd).
      eexists. eapply bind_ok; [by eapply list_iterator_next_step|].
      reflexivity.
  - destruct l as [|[p v] l'].
    + destruct (IH [] prv its Hd Hi) as [i' IH'].
      exists i'. eapply bind_ok; [by eapply list_iterator_next_end|].
      rewrite nth_ptr_ge in * by (cbn; lia). exact IH'.
    + apply dll_cons in Hd as (Hp & Hn & Hd).
      edestruct (IH l' p (<[it := Iter (hd_ptr l' NULL) LIST_HEAD]> its) Hd)
        as [i' IH']; [by rewrite lookup_insert_eq|].
      exists i'. eapply bind_ok; [by eapply list_iterator_next_step|].
      cbn [at_loop]. mem_simpl. rewrite insert_insert_eq in IH'. exact IH'.
Qed.

(** A backward iterator standing at the tail of [l] yields the node at
    offset [k] from the tail. *)
Lemma walk_backward k : ∀ l nx its,
  dll nd NULL l nx →
  its !! it = Some (Iter (last_ptr l NULL) LIST_TAIL) →
  ∃ i', (node <- list_iterator_next it ;; at_loop k it node)
          (Mem nd ls its rel b) =
        Ok (nth_ptr (rev l) k) (Mem nd ls (<[it := i']> its) rel b).
Proof.
  induction k as [|k IH]; intros l nx its Hd Hi.
  - destruct (dll_rcons_cases _ _ _ _ Hd)
      as [-> | (l0 & p & v & -> & Hd0 & Hn & Hp)].
    + exists (Iter NULL LIST_TAIL). rewrite insert_id by done.
      eapply bind_ok; [by eapply list_iterator_next_end|]. reflexivity.
    + rewrite last_ptr_snoc in Hi. rewrite rev_unit.
      eexists. eapply bind_ok; [by eapply list_iterator_next_step|].
      reflexivity.
  - destruct (dll_rcons_cases _ _ _ _ Hd)
      as [-> | (l0 & p & v & -> & Hd0 & Hn & Hp)].
    + destruct (IH [] nx its Hd Hi) as [i' IH'].
      exists i'. eapply bind_ok; [by eapply list_iterator_next_end|].
      cbn [rev] in *. rewrite nth_ptr_ge in * by (cbn; lia). exact IH'.
    + rewrite last_ptr_snoc in Hi. rewrite rev_unit.
      edestruct (IH l0 p (<[it := Iter (last_ptr l0 NULL) LIST_TAIL]> its) Hd0)
        as [i' IH']; [by rewrite lookup_insert_eq|].
      exists i'. eapply bind_ok; [by eapply list_iterator_next_step|].
      cbn [at_loop]. mem_simpl. rewrite insert_insert_eq in IH'. exact IH'.
Qed.
End Walk.

(** ** [list_at] *)

Lemma delete_fresh_insert {V} (h : gmap Z V) i x y :
  h !! i = None → delete i (<[i := x]> (<[i := y]> h)) = h.
Proof. intros Hi. by rewrite insert_insert_eq, delete_insert_eq, delete_id. Qed.

Lemma list_at_in_range m L cb l i b :
  is_list m L cb l → budget m = S b →
  - Z.of_nat (length l) ≤ i < Z.of_nat (length l) →
  list_at L i m =
  Ok (if i <? 0 then nth_ptr (rev l) (Z.to_nat (Z.lnot i))
      else nth_ptr l (Z.to_nat i))
     (with_budget m b).
Proof.
  intros (HL & Hlt & Hlen & Hnd & Hd) Hb Hi.
  unfold list_at. rewrite is_null_ne by done. cbn zeta.
  pose proof (fresh_addr_nonnull (iters m)) as Hit.
  pose proof (fresh_addr_fresh (iters m)) as Hfresh.
  eapply bind_ok; [run|]. mem_simpl.
  destruct (Z.ltb_spec i 0) as [Hneg|Hpos].
  - assert (0 ≤ Z.lnot i < Z.of_nat (length l)) as Hr
      by (unfold Z.lnot; lia).
    replace (wrap32 (Z.lnot i) <? Z.of_nat (length l)) with true
      by (symmetry; apply Z.ltb_lt; rewrite wrap32_small; lia).
    eapply bind_ok; [by eapply list_iterator_new_spec|]. mem_simpl.
    destruct m as [nd ls its rel b0]. mem_simpl.
    edestruct (walk_backward nd ls rel b (fresh_addr its) Hit
                 (Z.to_nat (Z.lnot i)) l NULL) as [i' Hw];
      [exact Hd| |].
    { rewrite lookup_insert_eq. reflexivity. }
    eapply (bind_bind_ok _ (λ node, at_loop _ _ node)); [exact Hw|].
    eapply bind_ok; [eapply list_iterator_destroy_spec; [done|]|].
    { mem_simpl. apply lookup_insert_eq. }
    unfold ret. mem_simpl. by rewrite delete_fresh_insert.
  - replace (wrap32 i <? Z.of_nat (length l)) with true
      by (symmetry; apply Z.ltb_lt; rewrite wrap32_small; lia).
    eapply bind_ok; [by eapply list_iterator_new_spec|]. mem_simpl.
    destruct m as [nd ls its rel b0]. mem_simpl.
    edestruct (walk_forward nd ls rel b (fresh_addr its) Hit
                 (Z.to_nat i) l NULL) as [i' Hw];
      [exact Hd| |].
    { rewrite lookup_insert_eq. reflexivity. }
    eapply (bind_bind_ok _ (λ node, at_loop _ _ node)); [exact Hw|].
    eapply bind_ok; [eapply list_iterator_destroy_spec; [done|]|].
    { mem_simpl. apply lookup_insert_eq. }
    unfold ret. mem_simpl. by rewrite delete_fresh_insert.
Qed.

Lemma list_at_out_of_range m L cb l i :
  is_list m L cb l → - 2 ^ 31 ≤ i < 2 ^ 31 →
  i < - Z.of_nat (length l) ∨ Z.of_nat (length l) ≤ i →
  list_at L i m = Ok NULL m.
Proof.
  intros (HL & Hlt & Hlen & Hnd & Hd) Hint Hi.
  unfold list_at. rewrite is_null_ne by done. cbn zeta.
  eapply bind_ok; [run|]. mem_simpl.
  destruct (Z.ltb_spec i 0) as [Hneg|Hpos].
  - replace (wrap32 (Z.lnot i) <? Z.of_nat (length l)) with false; [done|].
    symmetry. apply Z.ltb_ge. unfold Z.lnot in *. rewrite wrap32_small; lia.
  - replace (wrap32 i <? Z.of_nat (length l)) with false; [done|].
    symmetry. apply Z.ltb_ge. rewrite wrap32_small; lia.
Qed.

(** ** Ordered insertion *)

Lemma insert_ordered_split brk cmp x l :
  ∃ l1 l2,
    l = l1 ++ l2 ∧ insert_ordered brk cmp x l = l1 ++ x :: l2 ∧
    Forall (λ c, brk cmp c.2 x.2 = false) l1 ∧
    (l2 = [] ∨ ∃ q a l2', l2 = (q, a) :: l2' ∧ brk cmp a x.2 = true).
Proof.
  induction l as [|[q a] l (l1 & l2 & Hl & Hins & Hall & Hl2)].
  - exists [], []. split_and!; try done. by left.
  - cbn [insert_ordered]. destruct (brk cmp a x.2) eqn:Hb.
    + exists [], ((q, a) :: l). split_and!; try done. right. by exists q, a, l.
    + exists ((q, a) :: l1), l2. rewrite Hins, Hl at 1. split_and!; try done.
      by constructor.
Qed.

Lemma dll_length_le_size h prv l nx :
  NoDup l.*1 → dll h prv l nx → (length l ≤ size h)%nat.
Proof.
  intros Hnd Hd.
  rewrite <- (length_fmap fst l), <- (size_list_to_set (C := gset Z)) by done.
  rewrite <- (size_dom (D := gset Z) h). apply subseteq_size.
  intros p Hp. apply elem_of_list_to_set in Hp. apply elem_of_dom.
  by destruct (dll_live _ _ _ _ _ Hd Hp).
Qed.

Lemma is_list_same m m' L cb l :
  nodes m' = nodes m → lists m' = lists m → is_list m L cb l → is_list m' L cb l.
Proof. unfold is_list. intros -> ->. done. Qed.

Lemma dll_last_ptr_null h prv l nx :
  dll h prv l nx → last_ptr l NULL = NULL → l = [].
Proof.
  intros Hd. destruct (dll_rcons_cases _ _ _ _ Hd)
    as [-> | (l0 & p & v & -> & _ & _ & Hp)]; [done|].
  rewrite last_ptr_snoc. done.
Qed.

Section Scan.
Variables (brk : option (Z -> Z -> Z) -> Z -> Z -> bool)
  (nd : gmap Z list_node_t) (ls : gmap Z list_t)
  (rel : list (release_fn * Z)) (b : nat) (L it node_in : Z)
  (lt : list_t) (n : list_node_t).
Hypothesis HL : L ≠ NULL.
Hypothesis Hlt : ls !! L = Some lt.
Hypothesis Hit : it ≠ NULL.
Hypothesis Hin : node_in ≠ NULL.
Hypothesis Hn : nd !! node_in = Some n.

(** The scan stops on the first node whose value makes it leave. *)
Lemma push_scan_spec l1 : ∀ l2 prv its fuel,
  dll nd prv (l1 ++ l2) NULL →
  Forall (λ c, brk (list_compare lt) c.2 (node_val n) = false) l1 →
  (l2 = [] ∨
   ∃ q a l2', l2 = (q, a) :: l2' ∧ brk (list_compare lt) a (node_val n) = true) →
  its !! it = Some (Iter (hd_ptr (l1 ++ l2) NULL) LIST_HEAD) →
  (length l1 < fuel)%nat →
  ∃ i', push_scan brk fuel L it node_in (Mem nd ls its rel b) =
        Ok (hd_ptr l2 NULL) (Mem nd ls (<[it := i']> its) rel b).
Proof.
  induction l1 as [|[q a] l1 IH]; intros l2 prv its fuel Hd Hall Hl2 Hi Hfuel.
  - destruct fuel as [|fuel]; [cbn in Hfuel; lia|]. cbn [app] in *.
    cbn [push_scan].
    destruct Hl2 as [-> | (q & a & l2' & -> & Hb)].
    + exists (Iter NULL LIST_HEAD). rewrite insert_id by done.
      eapply bind_ok; [by eapply list_iterator_next_end|]. reflexivity.
    + apply dll_cons in Hd as (Hq & Hqn & Hd). cbn [hd_ptr] in *.
      eexists. eapply bind_ok; [by eapply list_iterator_next_step|].
      rewrite is_null_ne by done. mem_simpl.
      run. rewrite Hb. reflexivity.
  - destruct fuel as [|fuel]; [cbn in Hfuel; lia|]. cbn [app length] in *.
    cbn [push_scan].
    apply dll_cons in Hd as (Hq & Hqn & Hd). cbn [hd_ptr] in *.
    apply Forall_cons in Hall as [Hb Hall]. cbn [snd] in Hb.
    edestruct (IH l2 q (<[it := Iter (hd_ptr (l1 ++ l2) NULL) LIST_HEAD]> its)
                 fuel Hd Hall Hl2) as [i' IH'];
      [by rewrite lookup_insert_eq|lia|].
    exists i'. eapply bind_ok; [by eapply list_iterator_next_step|].
    rewrite is_null_ne by done. mem_simpl.
    run. rewrite Hb. rewrite insert_insert_eq in IH'. exact IH'.
Qed.
End Scan.

(** The scan of an ordered insertion, with its iterator made and released:
    the node found, at the cost of one allocation. *)
Lemma push_scan_run {A} brk m L cb l1 l2 p n b (K : Z → M A) :
  is_list m L cb (l1 ++ l2) → p ≠ NULL → nodes m !! p = Some n →
  budget m = S b →
  Forall (λ c, brk (cb_compare cb) c.2 (node_val n) = false) l1 →
  (l2 = [] ∨
   ∃ q a l2', l2 = (q, a) :: l2' ∧ brk (cb_compare cb) a (node_val n) = true) →
  (it <- list_iterator_new L LIST_HEAD ;;
   node <- (fun m => push_scan brk (S (size (nodes m))) L it p m) ;;
   list_iterator_destroy it ;;;
   K node) m =
  K (hd_ptr l2 NULL) (with_budget m b).
Proof.
  intros (HL & Hlt & Hlen & Hnd & Hd) Hp Hn Hb Hall Hl2.
  pose proof (fresh_addr_nonnull (iters m)) as Hit.
  pose proof (fresh_addr_fresh (iters m)) as Hfresh.
  pose proof (dll_length_le_size _ _ _ _ Hnd Hd) as Hsize.
  eapply bind_ok; [by eapply list_iterator_new_spec|]. mem_simpl.
  destruct m as [nd ls its rel b0]. mem_simpl.
  edestruct (push_scan_spec brk nd ls rel b L (fresh_addr its) p
               _ n HL Hlt Hit Hp Hn l1 l2 NULL
               (<[fresh_addr its := Iter (hd_ptr (l1 ++ l2) NULL) LIST_HEAD]> its)
               (S (size nd))) as [i' Hscan]; try done.
  { by rewrite lookup_insert_eq. }
  { rewrite length_app in Hsize. lia. }
  eapply bind_ok; [exact Hscan|]. mem_simpl.
  eapply bind_ok; [eapply list_iterator_destroy_spec; [done|]|].
  { mem_simpl. apply lookup_insert_eq. }
  mem_simpl. by rewrite delete_fresh_insert.
Qed.

Lemma push_ordered_spec brk m L cb l p n :
  is_list m L cb l → p ≠ NULL → nodes m !! p = Some n → p ∉ l.*1 →
  Z.of_nat (length l) + 1 < 2 ^ 32 →
  l = [] ∨ budget m ≠ O →
  ∃ m', push_ordered brk L p m = Ok p m' ∧
        is_list m' L cb (insert_ordered brk (cb_compare cb) (p, node_val n) l) ∧
        released m' = released m ∧ iters m' = iters m ∧
        budget m' = match l with [] => budget m | _ => Nat.pred (budget m) end ∧
        ∀ q, q ∉ p :: l.*1 → nodes m' !! q = nodes m !! q.
Proof.
  intros Hlist Hp Hn Hnotin Hroom Hbud.
  unfold push_ordered. rewrite !is_null_ne by (by destruct Hlist). cbn [orb].
  destruct l as [|c0 l0].
  { destruct (list_rpush_spec m L cb [] p n) as (m' & Hrun & Hl' & Hr & Hb & Hi & Hq);
      try done.
    exists m'. split_and!; try done.
    destruct Hlist as (HL & Hlt & _). cbn in Hlt. eapply bind_ok; [run|].
    mem_simpl. exact Hrun. }
  destruct Hbud as [|Hbud]; [done|].
  remember (c0 :: l0) as l eqn:El.
  assert (Z.of_nat (length l) ≠ 0) as Hlen0 by (subst l; cbn [length]; lia).
  assert (∀ x : nat, x = Nat.pred (budget m) →
          x = match l with [] => budget m | _ => Nat.pred (budget m) end)
    as Hbm by (subst l; done).
  clear El c0 l0.
  destruct (budget m) as [|b] eqn:Eb; [done|]. clear Hbud.
  destruct (insert_ordered_split brk (cb_compare cb) (p, node_val n) l)
    as (l1 & l2 & -> & -> & Hall & Hl2).
  cbn [snd] in *.
  assert (is_list (with_budget m b) L cb (l1 ++ l2)) as Hlist'
    by (by eapply is_list_same; [| |exact Hlist]).
  pose proof Hlist as (HL & Hlt & Hlen & Hnd & Hd).
  assert (∀ r,
    (λ node,
       if is_null node then list_rpush L p
       else
         np <- get_prev node ;;
         if is_null np then list_lpush L p
         else
           set_next p node ;;;
           np <- get_prev node ;;
           set_prev p np ;;;
           np <- get_prev node ;;
           set_next np p ;;;
           set_prev node p ;;;
           len <- get_len L ;;
           set_len L (wrap32 (len + 1)) ;;;
           ret p) (hd_ptr l2 NULL) (with_budget m b) = r →
    (len <- get_len L ;;
     if 0 =? len then list_rpush L p
     else
       it <- list_iterator_new L LIST_HEAD ;;
       node <- (fun m => push_scan brk (S (size (nodes m))) L it p m) ;;
       list_iterator_destroy it ;;;
       if is_null node then list_rpush L p
       else
         np <- get_prev node ;;
         if is_null np then list_lpush L p
         else
           set_next p node ;;;
           np <- get_prev node ;;
           set_prev p np ;;;
           np <- get_prev node ;;
           set_next np p ;;;
           set_prev node p ;;;
           len <- get_len L ;;
           set_len L (wrap32 (len + 1)) ;;;
           ret p) m = r) as Hprefix.
  { intros r <-. eapply bind_ok; [run|]. mem_simpl.
    replace (0 =? Z.of_nat (length (l1 ++ l2))) with false
      by (symmetry; apply Z.eqb_neq; lia).
    by eapply (push_scan_run brk m L cb l1 l2 p n b). }
  cbn beta in Hprefix.
  destruct Hl2 as [-> | (q & a & l2' & -> & Hbrk)].
  - rewrite app_nil_r in *. cbn [hd_ptr] in Hprefix.
    destruct (list_rpush_spec (with_budget m b) L cb l1 p n)
      as (m' & Hrun & Hl' & Hr & Hb & Hi & Hq); try done.
    exists m'. split; [by apply Hprefix|].
    split_and!; try done; try (apply Hbm; by rewrite Hb).
  - cbn [hd_ptr] in Hprefix.
    apply dll_app in Hd as (Hd1 & Hd2). apply dll_cons in Hd2 as (Hq & Hqn & Hd2).
    rewrite is_null_ne in Hprefix by done.
    destruct (dll_rcons_cases _ _ _ _ Hd1)
      as [-> | (l0 & r & rv & -> & Hd0 & Hr & Hrn)].
    + cbn [app] in *.
      destruct (list_lpush_spec (with_budget m b) L cb ((q, a) :: l2') p n)
        as (m' & Hrun & Hl' & Hr & Hb & Hi & Hq'); try done.
      exists m'. split.
      { apply Hprefix. eapply bind_ok; [run|]. exact Hrun. }
      split_and!; try done; try (apply Hbm; by rewrite Hb).
    + rewrite last_ptr_snoc in *.
      rewrite ?length_app, ?last_ptr_app, ?hd_ptr_app in Hlt, Hroom, Hlen.
      rewrite ?last_ptr_cons, ?last_ptr_snoc in Hlt.
      cbn [length hd_ptr fst] in *. facts.
      destruct m as [nd ls its rel b0]. mem_simpl.
      eexists. split; [apply Hprefix; run|]. heap_norm.
      unfold is_list. mem_simpl. split_and!; finish.
Qed.

(** ** Order kept by the ordered insertions *)

Lemma insert_ordered_perm brk cmp x l :
  insert_ordered brk cmp x l ≡ₚ x :: l.
Proof.
  induction l as [|[q a] l IH]; [done|].
  cbn [insert_ordered]. destruct (brk cmp a x.2); [done|].
  rewrite IH. apply perm_swap.
Qed.

Section Sorted_insert.
Variables (brk : option (Z -> Z -> Z) -> Z -> Z -> bool)
  (cmp : option (Z -> Z -> Z)) (R : Z → Z → Prop).
Hypothesis brk_false : ∀ a v, brk cmp a v = false → R a v.
Hypothesis brk_true : ∀ a v, brk cmp a v = true → R v a.

Lemma insert_ordered_sorted x l :
  Sorted R l.*2 → Sorted R (insert_ordered brk cmp x l).*2.
Proof.
  induction l as [|[q a] l IH]; intros Hs.
  - cbn. repeat constructor.
  - cbn [insert_ordered]. destruct (brk cmp a x.2) eqn:Hb.
    + cbn. constructor; [exact Hs|]. constructor. by apply brk_true.
    + cbn in Hs |- *. apply Sorted_inv in Hs as [Hs Hhd].
      constructor; [by apply IH|].
      destruct l as [|[q' a'] l'].
      * cbn. constructor. by apply brk_false.
      * cbn [insert_ordered]. destruct (brk cmp a' x.2).
        -- cbn. constructor. by apply brk_false.
        -- cbn. constructor. cbn in Hhd. by apply HdRel_inv in Hhd.
Qed.
End Sorted_insert.

Lemma asc_break_false a v : asc_break None a v = false → a ≤ v.
Proof. cbn. rewrite Z.gtb_ltb. intros H%Z.ltb_ge. lia. Qed.

Lemma asc_break_true a v : asc_break None a v = true → v ≤ a.
Proof. cbn. rewrite Z.gtb_ltb. intros H%Z.ltb_lt. lia. Qed.

Lemma desc_break_false a v : desc_break None a v = false → Z.ge a v.
Proof. cbn. intros H%Z.ltb_ge. lia. Qed.

Lemma desc_break_true a v : desc_break None a v = true → Z.ge v a.
Proof. cbn. intros H%Z.ltb_lt. lia. Qed.

(** A node fresh from [list_node_new] is live, detached, and in no chain. *)
Lemma is_list_node_new m L cb l v b :
  is_list m L cb l →
  let p := fresh_addr (nodes m) in
  let m1 := Mem (<[p := Node NULL NULL v]> (nodes m)) (lists m) (iters m)
              (released m) b in
  is_list m1 L cb l ∧ p ≠ NULL ∧ nodes m1 !! p = Some (Node NULL NULL v) ∧
  p ∉ l.*1.
Proof.
  intros (HL & Hlt & Hlen & Hnd & Hd) p m1.
  assert (p ∉ l.*1) as Hp.
  { intros Hin. destruct (dll_live _ _ _ _ _ Hd Hin) as [_ [x Hx]].
    unfold p in Hx. by rewrite fresh_addr_fresh in Hx. }
  split_and!; try done.
  - unfold is_list, m1. mem_simpl. split_and!; try done.
    by apply dll_insert_frame.
  - apply fresh_addr_nonnull.
  - unfold m1. mem_simpl. apply lookup_insert_eq.
Qed.

Section Insert_all.
Variables (brk : option (Z -> Z -> Z) -> Z -> Z -> bool) (R : Z → Z → Prop).
Hypothesis brk_false : ∀ a v, brk None a v = false → R a v.
Hypothesis brk_true : ∀ a v, brk None a v = true → R v a.

Lemma insert_all_sorted L cb vs : ∀ m l,
  is_list m L cb l → cb_compare cb = None → Sorted R l.*2 →
  (2 * length vs ≤ budget m)%nat →
  Z.of_nat (length l) + Z.of_nat (length vs) < 2 ^ 32 →
  ∃ m' l',
    insert_all (push_ordered brk) L vs m = Ok tt m' ∧
    is_list m' L cb l' ∧
    l'.*2 ≡ₚ filter (λ v, non_null v = true) vs ++ l.*2 ∧
    Sorted R l'.*2.
Proof.
  induction vs as [|v vs IH]; intros m l Hl Hc Hs Hb Hlen.
  - exists m, l. split_and!; done.
  - cbn [length] in *. cbn [insert_all].
    destruct (Z.eqb_spec v NULL) as [->|Hv].
    + destruct (IH m l) as (m' & l' & Hrun & Hl' & Hp & Hs'); try done; try lia.
      exists m', l'. split_and!; try done.
      eapply bind_ok; [apply list_node_new_null|].
      eapply bind_ok; [|exact Hrun].
      unfold push_ordered. destruct (is_null L); reflexivity.
    + destruct (budget m) as [|b] eqn:Eb; [lia|].
      destruct (is_list_node_new m L cb l v b Hl) as (Hl1 & Hp & Hn & Hnotin).
      set (p := fresh_addr (nodes m)) in *.
      set (m1 := Mem _ _ _ _ b) in *.
      destruct (push_ordered_spec brk m1 L cb l p _ Hl1 Hp Hn Hnotin)
        as (m2 & Hrun2 & Hl2 & _ & _ & Hb2 & _); [lia| |].
      { destruct l; [by left|right]. unfold m1. cbn. lia. }
      assert (budget m2 ≥ 2 * length vs)%nat as Hb2'.
      { rewrite Hb2. unfold m1. cbn. destruct l; lia. }
      cbn [node_val] in Hl2.
      destruct (IH m2 _ Hl2) as (m' & l' & Hrun & Hl' & Hperm & Hs'); try done.
      { rewrite Hc. by apply insert_ordered_sorted. }
      { rewrite (Permutation_length (insert_ordered_perm _ _ _ _)).
        cbn [length]. lia. }
      exists m', l'. split_and!; try done.
      * eapply bind_ok; [by apply list_node_new_spec|].
        eapply bind_ok; [exact Hrun2|]. exact Hrun.
      * rewrite Hperm. rewrite (insert_ordered_perm brk _ _ l).
        rewrite filter_cons_True by (unfold non_null; by rewrite is_null_ne).
        cbn. by rewrite Permutation_middle.
Qed.
End Insert_all.

(** ** Reading a chain back from the memory *)

Lemma walk_dll h l : ∀ fuel prv,
  dll h prv l NULL → (length l ≤ fuel)%nat → walk fuel h (hd_ptr l NULL) = l.
Proof.
  induction l as [|[p v] l IH]; intros fuel prv Hd Hfuel.
  - destruct fuel; reflexivity.
  - destruct fuel as [|fuel]; [cbn in Hfuel; lia|].
    apply dll_cons in Hd as (Hp & Hn & Hd). cbn [walk hd_ptr].
    rewrite deref_ne, Hn by done. cbn [node_val node_next].
    rewrite (IH fuel p) by (done || (cbn in Hfuel; lia)). reflexivity.
Qed.

Lemma chain_of_is_list m L cb l : is_list m L cb l → chain_of m L = l.
Proof.
  intros (HL & Hlt & Hlen & Hnd & Hd). unfold chain_of.
  rewrite deref_ne, Hlt by done. cbn [list_head].
  eapply walk_dll; [exact Hd|]. by eapply dll_length_le_size.
Qed.

(** ** C1: ordered insertion keeps the chain ordered *)

Lemma build_sorted brk R vs m :
  (∀ a v, brk None a v = false → R a v) →
  (∀ a v, brk None a v = true → R v a) →
  (2 * length vs + 1 ≤ budget m)%nat →
  Z.of_nat (length vs) < 2 ^ 32 →
  ∃ L m' l,
    build (push_ordered brk) vs m = Ok L m' ∧
    is_list m' L no_callbacks l ∧
    l.*2 ≡ₚ filter (λ v, non_null v = true) vs ∧
    Sorted R l.*2.
Proof.
  intros Hf Ht Hb Hlen.
  destruct (budget m) as [|b] eqn:Eb; [lia|].
  pose proof (list_new_spec m b Eb) as Hnew.
  set (L := fresh_addr (lists m)) in *. set (m1 := Mem _ _ _ _ b) in *.
  assert (is_list m1 L no_callbacks []) as Hl1.
  { apply is_list_new; [apply fresh_addr_nonnull|].
    unfold m1. mem_simpl. apply lookup_insert_eq. }
  destruct (insert_all_sorted brk R Hf Ht L no_callbacks vs m1 [] Hl1)
    as (m' & l' & Hrun & Hl' & Hperm & Hs); try done.
  { unfold m1. cbn. lia. }
  exists L, m', l'. split_and!; try done.
  - unfold build. eapply bind_ok; [exact Hnew|].
    eapply bind_ok; [exact Hrun|]. reflexivity.
  - by rewrite app_nil_r in Hperm.
Qed.

(** C1.  Values inserted one at a time into a list fresh from [list_new]
    (no compare callback) by [list_push_asc] leave a chain whose values are
    the non-null values inserted, in ascending order of the handles; by
    [list_push_desc], in descending order.  The allocator must grant the
    list, a node for each value and an iterator for each insertion, and the
    count must fit the [unsigned int] length. *)
Theorem ordered_insertion_sorts (m : mem) (vs : list Z) :
  (2 * length vs + 1 ≤ budget m)%nat →
  Z.of_nat (length vs) < 2 ^ 32 →
  (∃ L m' l,
     build list_push_asc vs m = Ok L m' ∧
     is_list m' L no_callbacks l ∧
     l.*2 ≡ₚ filter (λ v, non_null v = true) vs ∧
     Sorted Z.le l.*2) ∧
  (∃ L m' l,
     build list_push_desc vs m = Ok L m' ∧
     is_list m' L no_callbacks l ∧
     l.*2 ≡ₚ filter (λ v, non_null v = true) vs ∧
     Sorted Z.ge l.*2).
Proof.
  intros Hb Hlen. split.
  - apply build_sorted; auto using asc_break_false, asc_break_true.
  - apply build_sorted; auto using desc_break_false, desc_break_true.
Qed.

Lemma ordered_insertion_sorts_witness :
  (2 * length [5; 1; 4; 2; 3] + 1 ≤ budget (empty_mem 11))%nat ∧
  Z.of_nat (length [5; 1; 4; 2; 3]) < 2 ^ 32 ∧
  (∃ L m' l,
     build list_push_asc [5; 1; 4; 2; 3] (empty_mem 11) = Ok L m' ∧
     is_list m' L no_callbacks l ∧
     l.*2 ≡ₚ filter (λ v, non_null v = true) [5; 1; 4; 2; 3] ∧
     Sorted Z.le l.*2) ∧
  (∃ L m' l,
     build list_push_desc [5; 1; 4; 2; 3] (empty_mem 11) = Ok L m' ∧
     is_list m' L no_callbacks l ∧
     l.*2 ≡ₚ filter (λ v, non_null v = true) [5; 1; 4; 2; 3] ∧
     Sorted Z.ge l.*2).
Proof.
  split; [cbn; lia|]. split; [reflexivity|].
  apply ordered_insertion_sorts; [cbn; lia | reflexivity].
Defined.

(** The example of the specification, run. *)
Example push_asc_5_1_4_2_3 :
  match build list_push_asc [5; 1; 4; 2; 3] (empty_mem 11) with
  | Ok L m => (chain_of m L).*2
  | _ => []
  end = [1; 2; 3; 4; 5].
Proof. vm_compute. reflexivity. Qed.

Example push_desc_5_1_4_2_3 :
  match build list_push_desc [5; 1; 4; 2; 3] (empty_mem 11) with
  | Ok L m => (chain_of m L).*2
  | _ => []
  end = [5; 4; 3; 2; 1].
Proof. vm_compute. reflexivity. Qed.

(** ** C2: where a tie goes *)

(** Under the default ordering the new node goes after every node whose
    value is not greater (ascending), so after the nodes of equal value. *)
Lemma insert_ordered_asc_default x l :
  Sorted Z.le l.*2 →
  ∃ l1 l2,
    l = l1 ++ l2 ∧ insert_ordered asc_break None x l = l1 ++ x :: l2 ∧
    Forall (λ c, c.2 ≤ x.2) l1 ∧ Forall (λ c, x.2 < c.2) l2.
Proof.
  intros Hs.
  destruct (insert_ordered_split asc_break None x l)
    as (l1 & l2 & -> & Hins & Hall & Hl2).
  exists l1, l2. split_and!; try done.
  - eapply Forall_impl; [exact Hall|]. intros c Hc. by apply asc_break_false.
  - destruct Hl2 as [-> | (q & a & l2' & -> & Hb)]; [constructor|].
    rewrite fmap_app in Hs.
    apply Sorted.Sorted_StronglySorted in Hs; [|intros ???; lia].
    apply StronglySorted_app_1_r in Hs.
    cbn in Hs. apply StronglySorted_inv in Hs as [_ Hs].
    cbn in Hb. rewrite Z.gtb_ltb in Hb. apply Z.ltb_lt in Hb.
    constructor; [done|]. rewrite Forall_fmap in Hs.
    eapply Forall_impl; [exact Hs|]. intros c Hc. cbn in Hc. lia.
Qed.

Lemma insert_ordered_desc_default x l :
  Sorted Z.ge l.*2 →
  ∃ l1 l2,
    l = l1 ++ l2 ∧ insert_ordered desc_break None x l = l1 ++ x :: l2 ∧
    Forall (λ c, x.2 ≤ c.2) l1 ∧ Forall (λ c, c.2 < x.2) l2.
Proof.
  intros Hs.
  destruct (insert_ordered_split desc_break None x l)
    as (l1 & l2 & -> & Hins & Hall & Hl2).
  exists l1, l2. split_and!; try done.
  - eapply Forall_impl; [exact Hall|]. intros c Hc.
    apply desc_break_false in Hc. lia.
  - destruct Hl2 as [-> | (q & a & l2' & -> & Hb)]; [constructor|].
    rewrite fmap_app in Hs.
    apply Sorted.Sorted_StronglySorted in Hs; [|intros ???; lia].
    apply StronglySorted_app_1_r in Hs.
    cbn in Hs. apply StronglySorted_inv in Hs as [_ Hs].
    cbn in Hb. apply Z.ltb_lt in Hb.
    constructor; [done|]. rewrite Forall_fmap in Hs.
    eapply Forall_impl; [exact Hs|]. intros c Hc. cbn in Hc. lia.
Qed.

(** Two nodes pushed in turn into an empty list. *)
Lemma push_ordered_two brk m L cb p1 p2 n1 n2 :
  is_list m L cb [] → p1 ≠ NULL → p2 ≠ NULL → p1 ≠ p2 →
  nodes m !! p1 = Some n1 → nodes m !! p2 = Some n2 → budget m ≠ O →
  ∃ m', (push_ordered brk L p1 ;;; push_ordered brk L p2) m = Ok p2 m' ∧
        is_list m' L cb
          (insert_ordered brk (cb_compare cb) (p2, node_val n2)
             [(p1, node_val n1)]).
Proof.
  intros Hl Hp1 Hp2 Hne Hn1 Hn2 Hb.
  destruct (push_ordered_spec brk m L cb [] p1 n1 Hl Hp1 Hn1)
    as (m1 & Hrun1 & Hl1 & _ & _ & Hb1 & Hfr1);
    [cbn; apply not_elem_of_nil|done|by left|].
  cbn [insert_ordered] in Hl1.
  destruct (push_ordered_spec brk m1 L cb [(p1, node_val n1)] p2 n2 Hl1 Hp2)
    as (m2 & Hrun2 & Hl2 & _);
    [|cbn; apply not_elem_of_cons; split; [done|apply not_elem_of_nil]|done| |].
  - rewrite Hfr1; [done|]. cbn.
    apply not_elem_of_cons; split; [done|apply not_elem_of_nil].
  - right. by rewrite Hb1.
  - exists m2. split; [|done]. eapply bind_ok; [exact Hrun1|exact Hrun2].
Qed.

(** C2.  With a compare callback installed a tie is not always put after
    the nodes of equal value: for two nodes of one value [v] pushed in turn
    into an empty list, [list_push_asc] puts the second first when the
    callback answers true on [(v, v)], and [list_push_desc] puts the second
    first when it answers false (the strict "a > b" of list.h). *)
Theorem compare_tie_not_stable (m : mem) (L : Z) (cb : callbacks)
  (cmp : Z → Z → Z) (p1 p2 v : Z) :
  is_list m L cb [] → cb_compare cb = Some cmp →
  p1 ≠ NULL → p2 ≠ NULL → p1 ≠ p2 →
  nodes m !! p1 = Some (Node NULL NULL v) →
  nodes m !! p2 = Some (Node NULL NULL v) →
  budget m ≠ O →
  (cmp v v ≠ 0 →
   ∃ m', (list_push_asc L p1 ;;; list_push_asc L p2) m = Ok p2 m' ∧
         is_list m' L cb [(p2, v); (p1, v)]) ∧
  (cmp v v = 0 →
   ∃ m', (list_push_desc L p1 ;;; list_push_desc L p2) m = Ok p2 m' ∧
         is_list m' L cb [(p2, v); (p1, v)]).
Proof.
  intros Hl Hc Hp1 Hp2 Hne Hn1 Hn2 Hb. split; intros Hcmp.
  - destruct (push_ordered_two asc_break m L cb p1 p2 _ _ Hl Hp1 Hp2 Hne Hn1 Hn2 Hb)
      as (m' & Hrun & Hl').
    exists m'. split; [exact Hrun|].
    rewrite Hc in Hl'. cbn in Hl'.
    by rewrite (proj2 (Z.eqb_neq _ _) Hcmp) in Hl'.
  - destruct (push_ordered_two desc_break m L cb p1 p2 _ _ Hl Hp1 Hp2 Hne Hn1 Hn2 Hb)
      as (m' & Hrun & Hl').
    exists m'. split; [exact Hrun|].
    rewrite Hc in Hl'. cbn in Hl'. by rewrite Hcmp, Z.eqb_refl in Hl'.
Qed.

Lemma tie_mem_is_list : is_list tie_mem 1 (Callbacks None None (Some compare_gt)) [].
Proof. apply is_list_new; done. Qed.

Lemma compare_tie_not_stable_witness :
  ∃ m', (list_push_desc 1 1 ;;; list_push_desc 1 2) tie_mem = Ok 2 m' ∧
        is_list m' 1 (Callbacks None None (Some compare_gt)) [(2, 7); (1, 7)].
Proof.
  apply (compare_tie_not_stable tie_mem 1 (Callbacks None None (Some compare_gt))
           compare_gt 1 2 7); try done.
  apply tie_mem_is_list.
Defined.

(** The same, run: the node pushed second is first in the chain. *)
Example push_desc_tie_runs :
  match (list_push_desc 1 1 ;;; list_push_desc 1 2) tie_mem with
  | Ok _ m => chain_of m 1
  | _ => []
  end = [(2, 7); (1, 7)].
Proof. vm_compute. reflexivity. Qed.

(** Under the default ordering the same two pushes keep the first first. *)
Example push_desc_tie_default_runs :
  match (list_push_desc 1 1 ;;; list_push_desc 1 2)
          (with_lists tie_mem (<[1 := List NULL NULL 0 None None None]> ∅)) with
  | Ok _ m => chain_of m 1
  | _ => []
  end = [(1, 7); (2, 7)].
Proof. vm_compute. reflexivity. Qed.

(** ** C3: the structural invariants *)

Lemma reach_dll h l : ∀ prv, dll h prv l NULL → reach h (hd_ptr l NULL) l.*1.
Proof.
  induction l as [|[p v] l IH]; intros prv Hd.
  - constructor.
  - apply dll_cons in Hd as (Hp & Hn & Hd). cbn.
    econstructor; [done|exact Hn|]. cbn. by eapply IH.
Qed.

Lemma hd_ptr_null h prv l nx : dll h prv l nx → hd_ptr l NULL = NULL → l = [].
Proof.
  destruct l as [|[p v] l]; [done|]. intros Hd%dll_cons. cbn. tauto.
Qed.

Lemma last_ptr_last l d : last_ptr l d = default d (last l.*1).
Proof.
  unfold last_ptr. rewrite fmap_last. by destruct (last l) as [[p v]|].
Qed.

(** A described chain satisfies the invariants of the data model. *)
Lemma is_list_invariants m L cb l : is_list m L cb l → invariants m L.
Proof.
  intros (HL & Hlt & Hlen & Hnd & Hd).
  eexists _, l.*1. split; [exact Hlt|]. cbn [list_head list_tail list_len].
  assert (hd_ptr l NULL = NULL ↔ l = []) as Hhd.
  { split; [by eapply hd_ptr_null|]. by intros ->. }
  assert (last_ptr l NULL = NULL ↔ l = []) as Hlast.
  { split; [by eapply dll_last_ptr_null|]. by intros ->. }
  split_and!.
  - by eapply reach_dll.
  - by rewrite length_fmap.
  - rewrite Hhd. destruct l; cbn; [done|]. split; [lia|done].
  - by rewrite Hhd, Hlast.
  - apply last_ptr_last.
  - intros n [Hh Hn]%deref_Some. destruct l as [|[p v] l']; [done|].
    apply dll_cons in Hd as (_ & Hn' & _). cbn in Hn.
    rewrite Hn' in Hn. by injection Hn as <-.
  - intros n [Hh Hn]%deref_Some.
    destruct (dll_rcons_cases _ _ _ _ Hd) as [-> | (l0 & p & v & -> & _ & Hn' & _)];
      [done|].
    rewrite last_ptr_snoc in Hn. rewrite Hn' in Hn. by injection Hn as <-.
  - intros p n Hin Hn.
    apply list_elem_of_fmap in Hin as [[p' v] [Hp' Hin]]. cbn in Hp'. subst p'.
    apply list_elem_of_split in Hin as (l1 & l2 & ->).
    pose proof Hd as Hd'. apply dll_lookup in Hd' as [Hp Hn'].
    rewrite Hn' in Hn. injection Hn as <-. cbn [node_next node_prev].
    split; intros Hnz.
    + destruct l2 as [|[s sv] l2']; [done|]. cbn [hd_ptr].
      replace (l1 ++ (p, v) :: (s, sv) :: l2')
        with ((l1 ++ [(p, v)]) ++ (s, sv) :: l2') in Hd
        by (by rewrite <- app_assoc).
      apply dll_lookup in Hd as [_ Hs]. rewrite last_ptr_snoc in Hs.
      eexists. split; [exact Hs|done].
    + destruct l1 as [|c l1' _] using rev_ind; [done|]. destruct c as [r rv].
      rewrite last_ptr_snoc. rewrite <- app_assoc in Hd.
      apply dll_lookup in Hd as [_ Hr].
      eexists. split; [exact Hr|done].
Qed.

Lemma members_is_list m L cb l : is_list m L cb l → members m L = l.*1.
Proof. intros Hl. unfold members. by rewrite (chain_of_is_list _ _ _ _ Hl). Qed.

Lemma detached_spec m L cb l node :
  is_list m L cb l → detached m L node = true →
  node ≠ NULL ∧ (∃ n, nodes m !! node = Some n) ∧ node ∉ l.*1.
Proof.
  intros Hl. unfold detached. rewrite (members_is_list _ _ _ _ Hl).
  rewrite !andb_true_iff, negb_true_iff, forallb_forall.
  intros [[Hnull Hlive] Hout]. split_and!.
  - by apply Z.eqb_neq.
  - destruct (nodes m !! node); [eauto|done].
  - intros Hin%list_elem_of_In. specialize (Hout _ Hin).
    by rewrite Z.eqb_refl in Hout.
Qed.

Lemma room_spec m L cb l :
  is_list m L cb l → room m L = true → Z.of_nat (length l) + 1 < 2 ^ 32.
Proof.
  intros (HL & Hlt & _). unfold room. rewrite deref_ne, Hlt by done.
  cbn [list_len]. by intros ?%Z.ltb_lt.
Qed.

(** One legal operation runs to its end and leaves a described chain. *)
Lemma legal_step m L cb l o :
  is_list m L cb l → legal m L o = true →
  ∃ r m' l', run_op L o m = Ok r m' ∧ is_list m' L cb l'.
Proof.
  intros Hl Hlegal. destruct o as [v|node|node| | |node|node|node]; cbn in Hlegal |- *.
  - destruct (Z.eqb_spec v NULL) as [->|Hv];
      [by exists NULL, m, l; rewrite list_node_new_null|].
    destruct (budget m) as [|b] eqn:Eb;
      [by exists NULL, m, l; rewrite list_node_new_exhausted|].
    destruct (is_list_node_new m L cb l v b Hl) as (Hl1 & _).
    eexists _, _, l. split; [by apply list_node_new_spec|done].
  - apply andb_true_iff in Hlegal as [Hdet Hroom].
    destruct (detached_spec _ _ _ _ _ Hl Hdet) as (Hp & [n Hn] & Hout).
    destruct (list_rpush_spec m L cb l node n Hl Hp Hn Hout) as (m' & Hrun & Hl' & _);
      [by eapply room_spec|].
    by eexists _, m', _.
  - apply andb_true_iff in Hlegal as [Hdet Hroom].
    destruct (detached_spec _ _ _ _ _ Hl Hdet) as (Hp & [n Hn] & Hout).
    destruct (list_lpush_spec m L cb l node n Hl Hp Hn Hout) as (m' & Hrun & Hl' & _);
      [by eapply room_spec|].
    by eexists _, m', _.
  - destruct l as [|[p v] l0 _] using rev_ind.
    + exists NULL, m, []. split; [by eapply list_rpop_empty|done].
    + destruct (list_rpop_spec m L cb l0 p v Hl) as (m' & Hrun & Hl' & _).
      by exists p, m', l0.
  - destruct l as [|[p v] l0].
    + exists NULL, m, []. split; [by eapply list_lpop_empty|done].
    + destruct (list_lpop_spec m L cb l0 p v Hl) as (m' & Hrun & Hl' & _).
      by exists p, m', l0.
  - rewrite (members_is_list _ _ _ _ Hl) in Hlegal.
    apply existsb_exists in Hlegal as (q & Hin & ->%Z.eqb_eq).
    apply list_elem_of_In, list_elem_of_fmap in Hin as ([p v] & Hq & Hin).
    cbn in Hq. subst p. apply list_elem_of_split in Hin as (l1 & l2 & ->).
    destruct (list_remove_spec m L cb l1 q v l2 Hl) as (m' & Hrun & Hl' & _).
    by exists 0, m', (l1 ++ l2).
  - apply andb_true_iff in Hlegal as [[Hdet Hroom]%andb_true_iff Hbud].
    destruct (detached_spec _ _ _ _ _ Hl Hdet) as (Hp & [n Hn] & Hout).
    destruct (push_ordered_spec asc_break m L cb l node n Hl Hp Hn Hout)
      as (m' & Hrun & Hl' & _); [by eapply room_spec| |by eexists _, m', _].
    rewrite (members_is_list _ _ _ _ Hl) in Hbud.
    destruct l; [by left|right]. cbn in Hbud. by destruct (budget m).
  - apply andb_true_iff in Hlegal as [[Hdet Hroom]%andb_true_iff Hbud].
    destruct (detached_spec _ _ _ _ _ Hl Hdet) as (Hp & [n Hn] & Hout).
    destruct (push_ordered_spec desc_break m L cb l node n Hl Hp Hn Hout)
      as (m' & Hrun & Hl' & _); [by eapply room_spec| |by eexists _, m', _].
    rewrite (members_is_list _ _ _ _ Hl) in Hbud.
    destruct l; [by left|right]. cbn in Hbud. by destruct (budget m).
Qed.

(** C3, refuted as stated: not every sequence keeps the invariants.  Two
    nodes are made and pushed at the tail, and the first is pushed again
    while it is still the head.  Every call returns, and the list is left
    with [head] and [tail] on the same node, [len = 3] and one node reached
    from [head].  The first four operations are legal; the fifth breaks the
    obligation that a pushed node is not in the list, which [list_rpush]
    does not test. *)
Lemma repeated_push_breaks_invariants :
  is_list (fresh_list_mem 2) 1 no_callbacks [] ∧
  legal_run 1 (take 4 repeated_push_ops) (fresh_list_mem 2) = true ∧
  legal_run 1 repeated_push_ops (fresh_list_mem 2) = false ∧
  run_ops 1 repeated_push_ops (fresh_list_mem 2) = Ok tt repeated_push_mem ∧
  ¬ invariants repeated_push_mem 1.
Proof.
  split; [by apply is_list_new|].
  split; [vm_compute; reflexivity|]. split; [vm_compute; reflexivity|].
  split; [vm_compute; reflexivity|].
  intros (lt & ps & Hlt & Hreach & Hlen & _).
  unfold repeated_push_mem in *. mem_simpl.
  rewrite lookup_insert_eq in Hlt. injection Hlt as <-.
  cbn [list_head list_len] in *.
  inversion Hreach as [|? n ps' _ Hn Hnext]; subst.
  rewrite lookup_insert_eq in Hn. injection Hn as <-.
  cbn [node_next] in Hnext. inversion Hnext; subst; [|done].
  cbn in Hlen. lia.
Qed.

(** C3, amended.  From an empty list, after every step of a sequence of
    [list_rpush], [list_lpush], [list_rpop], [list_lpop], [list_remove],
    [list_push_asc] and [list_push_desc] (and of [list_node_new], which
    makes the nodes) in which the caller keeps the obligations of [legal]
    (a pushed node is live and not in the list, a removed node is in the
    list, one more node fits the [unsigned int] length, and an ordered
    insertion into a non-empty list finds memory for its iterator), the
    run has not stopped and the invariants hold: [len] counts the nodes
    reached from [head], [len], [head] and [tail] are null together,
    [head] has no [prev] and [tail] no [next], and the links of neighbours
    mirror each other. *)
Theorem invariants_after_each_step (m : mem) (L : Z) (cb : callbacks)
  (os : list op) (k : nat) :
  is_list m L cb [] → legal_run L os m = true →
  ∃ m', run_ops L (take k os) m = Ok tt m' ∧ invariants m' L.
Proof.
  generalize (@nil (Z * Z)) as l. intros l Hl Hlegal.
  revert m l k Hl Hlegal.
  induction os as [|o os IH]; intros m l k Hl Hlegal.
  - rewrite take_nil. exists m. split; [done|]. by eapply is_list_invariants.
  - destruct k as [|k].
    + exists m. split; [done|]. by eapply is_list_invariants.
    + cbn [legal_run] in Hlegal. apply andb_true_iff in Hlegal as [Ho Hrest].
      destruct (legal_step m L cb l o Hl Ho) as (r & m1 & l1 & Hrun & Hl1).
      rewrite Hrun in Hrest.
      destruct (IH m1 l1 k Hl1 Hrest) as (m' & Hruns & Hinv).
      exists m'. split; [|done]. cbn [take run_ops].
      eapply bind_ok; [exact Hrun|exact Hruns].
Qed.

Lemma fresh_list_mem_is_list b : is_list (fresh_list_mem b) 1 no_callbacks [].
Proof. apply is_list_new; done. Qed.

Lemma invariants_after_each_step_witness :
  ∃ m', run_ops 1 (take 12 sample_ops) (fresh_list_mem 8) = Ok tt m' ∧
        invariants m' 1.
Proof.
  apply (invariants_after_each_step (fresh_list_mem 8) 1 no_callbacks sample_ops 12).
  - apply fresh_list_mem_is_list.
  - vm_compute. reflexivity.
Defined.

(** ** C4: first in first out, last in first out *)

Lemma fresh_addr_insert_ne {V} (h : gmap Z V) p x :
  fresh_addr (<[p := x]> h) ≠ p.
Proof.
  intros E. pose proof (fresh_addr_fresh (<[p := x]> h)) as Hf.
  rewrite E, lookup_insert_eq in Hf. done.
Qed.

Lemma push_back_three_spec m L cb a b c :
  is_list m L cb [] → a ≠ NULL → b ≠ NULL → c ≠ NULL → (3 ≤ budget m)%nat →
  ∃ m' pa pb pc,
    push_back_three L a b c m = Ok tt m' ∧
    is_list m' L cb [(pa, a); (pb, b); (pc, c)] ∧
    released m' = released m.
Proof.
  intros Hl Ha Hb Hc Hbud.
  destruct (budget m) as [|[|[|b0]]] eqn:Eb; try lia.
  pose proof (list_node_new_spec a m _ Ha Eb) as Hna.
  destruct (is_list_node_new m L cb [] a (S (S b0)) Hl) as (Hl1 & Hpa & Hla & _).
  set (pa := fresh_addr (nodes m)) in *. set (m1 := Mem _ _ _ _ (S (S b0))) in *.
  pose proof (list_node_new_spec b m1 (S b0) Hb eq_refl) as Hnb.
  destruct (is_list_node_new m1 L cb [] b (S b0) Hl1) as (Hl2 & Hpb & Hlb & _).
  assert (fresh_addr (nodes m1) ≠ pa) as Hab by apply fresh_addr_insert_ne.
  set (pb := fresh_addr (nodes m1)) in *. set (m2 := Mem _ _ _ _ (S b0)) in *.
  pose proof (list_node_new_spec c m2 b0 Hc eq_refl) as Hnc.
  destruct (is_list_node_new m2 L cb [] c b0 Hl2) as (Hl3 & Hpc & Hlc & _).
  assert (fresh_addr (nodes m2) ≠ pb) as Hcb by apply fresh_addr_insert_ne.
  assert (fresh_addr (nodes m2) ≠ pa) as Hca.
  { intros E. pose proof (fresh_addr_fresh (nodes m2)) as Hf.
    rewrite E in Hf. unfold m2, m1 in Hf. cbn [nodes] in Hf.
    rewrite lookup_insert_ne, lookup_insert_eq in Hf; done. }
  set (pc := fresh_addr (nodes m2)) in *. set (m3 := Mem _ _ _ _ b0) in *.
  assert (nodes m3 !! pa = Some (Node NULL NULL a)) as Hla3.
  { unfold m3, m2, m1. cbn [nodes].
    rewrite !lookup_insert_ne by done. apply lookup_insert_eq. }
  assert (nodes m3 !! pb = Some (Node NULL NULL b)) as Hlb3.
  { unfold m3, m2. cbn [nodes].
    rewrite lookup_insert_ne by done. apply lookup_insert_eq. }
  destruct (list_rpush_spec m3 L cb [] pa _ Hl3 Hpa Hla3)
    as (m4 & Hr4 & Hl4 & Hrel4 & _ & _ & Hfr4); [cbn; apply not_elem_of_nil|done|].
  destruct (list_rpush_spec m4 L cb _ pb (Node NULL NULL b) Hl4 Hpb)
    as (m5 & Hr5 & Hl5 & Hrel5 & _ & _ & Hfr5).
  { rewrite Hfr4; [done|]. cbn. facts. nodup_tac. }
  { cbn. nodup_tac. }
  { done. }
  destruct (list_rpush_spec m5 L cb _ pc (Node NULL NULL c) Hl5 Hpc)
    as (m6 & Hr6 & Hl6 & Hrel6 & _).
  { rewrite Hfr5, Hfr4; [done| |]; cbn; nodup_tac. }
  { cbn. nodup_tac. }
  { done. }
  exists m6, pa, pb, pc. split_and!.
  - unfold push_back_three.
    eapply bind_ok; [exact Hna|]. eapply bind_ok; [exact Hnb|].
    eapply bind_ok; [exact Hnc|]. eapply bind_ok; [exact Hr4|].
    eapply bind_ok; [exact Hr5|]. eapply bind_ok; [exact Hr6|]. reflexivity.
  - exact Hl6.
  - by rewrite Hrel6, Hrel5, Hrel4.
Qed.

Lemma pop_val_lpop m L cb p v l :
  is_list m L cb ((p, v) :: l) →
  ∃ m', pop_val list_lpop L m = Ok v m' ∧ is_list m' L cb l.
Proof.
  intros Hl. pose proof Hl as (_ & _ & _ & _ & (Hp & _)%dll_cons).
  destruct (list_lpop_spec m L cb l p v Hl) as (m' & Hrun & Hl' & Hn & _).
  exists m'. split; [|done]. unfold pop_val.
  eapply bind_ok; [exact Hrun|]. exact (get_val_ok m' p Hp _ Hn).
Qed.

Lemma pop_val_rpop m L cb p v l :
  is_list m L cb (l ++ [(p, v)]) →
  ∃ m', pop_val list_rpop L m = Ok v m' ∧ is_list m' L cb l.
Proof.
  intros Hl. pose proof Hl as (_ & _ & _ & _ & (_ & Hp & _)%dll_snoc).
  destruct (list_rpop_spec m L cb l p v Hl) as (m' & Hrun & Hl' & Hn & _).
  exists m'. split; [|done]. unfold pop_val.
  eapply bind_ok; [exact Hrun|]. exact (get_val_ok m' p Hp _ Hn).
Qed.

(** C4.  Three values pushed by [list_rpush] into an empty list come back
    from three [list_lpop] in the order pushed and from three [list_rpop]
    in the reverse order.  The values are non-null handles (a node cannot
    hold a null one) and the allocator grants the three nodes. *)
Theorem push_back_pop_order (m : mem) (L : Z) (cb : callbacks) (a b c : Z) :
  is_list m L cb [] → a ≠ NULL → b ≠ NULL → c ≠ NULL → (3 ≤ budget m)%nat →
  (∃ m', (push_back_three L a b c ;;; pop_three list_lpop L) m =
         Ok (a, b, c) m') ∧
  (∃ m', (push_back_three L a b c ;;; pop_three list_rpop L) m =
         Ok (c, b, a) m').
Proof.
  intros Hl Ha Hb Hc Hbud.
  destruct (push_back_three_spec m L cb a b c Hl Ha Hb Hc Hbud)
    as (m1 & pa & pb & pc & Hpush & Hl1 & _).
  split.
  - destruct (pop_val_lpop _ _ _ _ _ _ Hl1) as (m2 & Hr2 & Hl2).
    destruct (pop_val_lpop _ _ _ _ _ _ Hl2) as (m3 & Hr3 & Hl3).
    destruct (pop_val_lpop _ _ _ _ _ _ Hl3) as (m4 & Hr4 & Hl4).
    exists m4. eapply bind_ok; [exact Hpush|]. unfold pop_three.
    eapply bind_ok; [exact Hr2|]. eapply bind_ok; [exact Hr3|].
    eapply bind_ok; [exact Hr4|]. reflexivity.
  - destruct (pop_val_rpop m1 L cb pc c [(pa, a); (pb, b)] Hl1) as (m2 & Hr2 & Hl2).
    destruct (pop_val_rpop m2 L cb pb b [(pa, a)] Hl2) as (m3 & Hr3 & Hl3).
    destruct (pop_val_rpop m3 L cb pa a [] Hl3) as (m4 & Hr4 & Hl4).
    exists m4. eapply bind_ok; [exact Hpush|]. unfold pop_three.
    eapply bind_ok; [exact Hr2|]. eapply bind_ok; [exact Hr3|].
    eapply bind_ok; [exact Hr4|]. reflexivity.
Qed.

Lemma push_back_pop_order_witness :
  (∃ m', (push_back_three 1 10 20 30 ;;; pop_three list_lpop 1)
           (fresh_list_mem 3) = Ok (10, 20, 30) m') ∧
  (∃ m', (push_back_three 1 10 20 30 ;;; pop_three list_rpop 1)
           (fresh_list_mem 3) = Ok (30, 20, 10) m').
Proof.
  apply (push_back_pop_order (fresh_list_mem 3) 1 no_callbacks 10 20 30);
    try done.
  apply fresh_list_mem_is_list.
Defined.

(** ** C5: [list_remove] does not test that the node belongs to the list *)

Lemma list_remove_null_list node m : list_remove NULL node m = Ok (-1) m.
Proof. reflexivity. Qed.

Lemma list_remove_null_node self m : list_remove self NULL m = Ok (-1) m.
Proof. unfold list_remove. by destruct (is_null self). Qed.

Lemma two_lists_mem_is_list :
  is_list two_lists_mem 1 no_callbacks [(1, 10)] ∧
  is_list two_lists_mem 2 no_callbacks [(2, 20); (3, 30); (4, 40)].
Proof.
  split; (split_and!; try done;
    [ cbn; apply NoDup_ListNoDup; repeat (constructor; [cbn; lia|]); constructor
    | repeat (apply dll_cons; split_and!; try done); apply dll_nil ]).
Qed.

(** C5, refuted as stated: removing from an empty list a node that is not
    in it succeeds (result 0), releases the node and wraps [len] round to
    [2^32 - 1]; and removing from the list [a] the head [x] of another
    list [x, y, z] succeeds as well: [x] is released, [y] loses its [prev],
    and the first list is left with [head] on [y], [tail] on [a] and
    [len = 0]. *)
Lemma list_remove_foreign_node :
  is_list foreign_mem 1 no_callbacks [] ∧
  detached foreign_mem 1 1 = true ∧
  list_remove 1 1 foreign_mem =
    Ok 0 (Mem ∅ (<[1 := List NULL NULL 4294967295 None None None]> ∅) ∅ [] 0) ∧
  is_list two_lists_mem 1 no_callbacks [(1, 10)] ∧
  is_list two_lists_mem 2 no_callbacks [(2, 20); (3, 30); (4, 40)] ∧
  detached two_lists_mem 1 2 = true ∧
  list_remove 1 2 two_lists_mem =
    Ok 0 (Mem (<[1 := Node NULL NULL 10]>
                 (<[3 := Node NULL 4 30]> (<[4 := Node 3 NULL 40]> ∅)))
              (<[1 := List 3 1 0 None None None]>
                 (<[2 := List 2 4 3 None None None]> ∅))
              ∅ [] 0).
Proof.
  split; [by apply is_list_new|]. split; [vm_compute; reflexivity|].
  split; [vm_compute; reflexivity|].
  split; [apply two_lists_mem_is_list|]. split; [apply two_lists_mem_is_list|].
  split; vm_compute; reflexivity.
Qed.

(** C5, amended.  [list_remove] answers [-1], with nothing changed, only to
    a null list or a null node.  Given any live list and any live node
    whose neighbours, if it has any, are live, in the list or not, it
    answers 0 and unlinks the node through the node's own links: the [next]
    of its [prev] neighbour becomes its [next], or the [head] of the list
    where it has no [prev]; the [prev] of its [next] neighbour becomes its
    [prev], or the [tail] of the list where it has no [next].  The
    neighbours keep their values and their other link, [head] and [tail]
    are written in no other case, no other node and no other list changes,
    and the callbacks stay.  The node is released, the release callback is
    called on its value if there is one, and [len] goes down by one modulo
    [2^32]. *)
Theorem list_remove_unchecked (m : mem) (L node : Z) (lt : list_t)
  (n : list_node_t) :
  L ≠ NULL → node ≠ NULL →
  lists m !! L = Some lt → nodes m !! node = Some n →
  node_prev n = NULL ∨ is_Some (nodes m !! node_prev n) →
  node_next n = NULL ∨ is_Some (nodes m !! node_next n) →
  (∀ m0, list_remove NULL node m0 = Ok (-1) m0) ∧
  (∀ m0, list_remove L NULL m0 = Ok (-1) m0) ∧
  ∃ m' lt',
    list_remove L node m = Ok 0 m' ∧
    nodes m' !! node = None ∧
    lists m' !! L = Some lt' ∧
    list_len lt' = wrap32 (list_len lt - 1) ∧
    released m' =
      released m ++
      match list_free lt with Some f => [(f, node_val n)] | None => [] end ∧
    list_head lt' =
      (if is_null (node_prev n) then node_next n else list_head lt) ∧
    list_tail lt' =
      (if is_null (node_next n) then node_prev n else list_tail lt) ∧
    (node_prev n ≠ NULL → node_prev n ≠ node →
     ∃ x x', nodes m !! node_prev n = Some x ∧
             nodes m' !! node_prev n = Some x' ∧
             node_next x' = node_next n ∧ node_val x' = node_val x ∧
             (node_prev n ≠ node_next n → node_prev x' = node_prev x)) ∧
    (node_next n ≠ NULL → node_next n ≠ node →
     ∃ y y', nodes m !! node_next n = Some y ∧
             nodes m' !! node_next n = Some y' ∧
             node_prev y' = node_prev n ∧ node_val y' = node_val y ∧
             (node_next n ≠ node_prev n → node_next y' = node_next y)) ∧
    (∀ q, q ≠ node → q ≠ node_prev n → q ≠ node_next n →
          nodes m' !! q = nodes m !! q) ∧
    (∀ L', L' ≠ L → lists m' !! L' = lists m !! L') ∧
    list_free lt' = list_free lt ∧ list_match lt' = list_match lt ∧
    list_compare lt' = list_compare lt ∧
    budget m' = budget m ∧ iters m' = iters m.
Proof.
  intros HL Hnode Hlt Hn Hprev Hnext.
  split; [apply list_remove_null_list|]. split; [apply list_remove_null_node|].
  destruct m as [nd ls its rel b]. destruct n as [np nn v].
  destruct lt as [h t len f mt c]. mem_simpl.
  unfold list_remove. rewrite !is_null_ne by done. cbn [orb].
  assert (∀ r : list (release_fn * Z), r ++ [] = r) as Hnil by apply app_nil_r.
  assert (np = NULL ∨ np ≠ NULL ∧ is_Some (nd !! np)) as Hprev'
    by (destruct (decide (np = NULL)); tauto).
  assert (nn = NULL ∨ nn ≠ NULL ∧ is_Some (nd !! nn)) as Hnext'
    by (destruct (decide (nn = NULL)); tauto).
  clear Hprev Hnext.
  destruct Hprev' as [E1|[N1 [xp Hxp]]]; destruct Hnext' as [E3|[N3 [xn Hxn]]];
    destruct (decide (np = node)) as [E2|N2];
    destruct (decide (nn = node)) as [E4|N4];
    destruct (decide (nn = np)) as [E5|N5];
    try congruence; subst;
    repeat match goal with
      | H1 : ?x = Some ?a, H2 : ?x = Some ?b |- _ =>
          assert (b = a) by congruence; first [subst b | subst a]; clear H2
      end;
    destruct f as [f|];
    (eexists _, _; split; [run|]; heap_norm; rewrite ?Hnil;
     split_and!;
     [ lookup_tac; apply lookup_delete_eq
     | lookup_tac; reflexivity
     | reflexivity
     | reflexivity | .. ]).
  all: try reflexivity.
  all: try (rewrite ?is_null_ne by done; reflexivity).
  all: try (intros; congruence).
  all: try (intros; lookup_tac; done).
  all: intros; eexists _, _; (split; [eassumption|]); (split; [lookup_tac|]);
    cbn; split_and!; (done || congruence).
Qed.

Lemma list_remove_unchecked_witness :
  ∃ m' lt' x' y',
    list_remove 1 3 two_lists_mem = Ok 0 m' ∧
    nodes m' !! 3 = None ∧
    lists m' !! 1 = Some lt' ∧
    list_head lt' = 1 ∧ list_tail lt' = 1 ∧ list_len lt' = 0 ∧
    nodes m' !! 2 = Some x' ∧ node_next x' = 4 ∧
    nodes m' !! 4 = Some y' ∧ node_prev y' = 2 ∧
    nodes m' !! 1 = Some (Node NULL NULL 10) ∧
    released m' = [].
Proof.
  destruct (list_remove_unchecked two_lists_mem 1 3
              (List 1 1 1 None None None) (Node 2 4 30))
    as (_ & _ & m' & lt' & Hrun & Hfree & Hlt & Hlen & Hrel & Hhead & Htail &
        Hprev & Hnext & Hframe & _);
    [done|done|reflexivity|reflexivity
    |right; eexists; reflexivity|right; eexists; reflexivity|].
  destruct Hprev as (x & x' & _ & Hx' & Hxn & _); [done|done|].
  destruct Hnext as (y & y' & _ & Hy' & Hyp & _); [done|done|].
  exists m', lt', x', y'.
  split_and!; try done.
  rewrite Hframe by done. reflexivity.
Defined.

(** ** [list_destroy] *)

Lemma release_calls_cons f c l :
  release_calls f (c :: l) = release_calls f [c] ++ release_calls f l.
Proof. by destruct f. Qed.

Lemma destroy_loop_spec ls its b L lt l : ∀ prv nd rel,
  L ≠ NULL → ls !! L = Some lt →
  dll nd prv l NULL → NoDup l.*1 →
  ∃ nd',
    destroy_loop (length l) L (hd_ptr l NULL) (Mem nd ls its rel b) =
      Ok tt (Mem nd' ls its (rel ++ release_calls (list_free lt) l) b) ∧
    (∀ p, p ∈ l.*1 → nd' !! p = None) ∧
    (∀ q, q ∉ l.*1 → nd' !! q = nd !! q).
Proof.
  induction l as [|[p v] l IH]; intros prv nd rel HL Hlt Hd Hnd.
  - exists nd. split_and!; try done.
    + cbn. destruct (list_free lt); cbn; by rewrite app_nil_r.
    + intros p Hp. cbn in Hp. by apply not_elem_of_nil in Hp.
  - apply dll_cons in Hd as (Hp & Hn & Hd). facts.
    destruct (IH p (delete p nd)
                (rel ++ release_calls (list_free lt) [(p, v)]) HL Hlt)
      as (nd' & Hrun & Hgone & Hkept); [by apply dll_delete_frame|done|].
    exists nd'. split_and!.
    + cbn [length destroy_loop hd_ptr].
      rewrite release_calls_cons, app_assoc.
      destruct lt as [h t len [f|] mt c]; cbn [list_free release_calls] in *;
        rewrite ?app_nil_r in *;
        (etransitivity; [|exact Hrun]); run; reflexivity.
    + intros q [->|Hq]%elem_of_cons; [|by apply Hgone].
      rewrite Hkept by done. apply lookup_delete_eq.
    + intros q [Hq1 Hq2]%not_elem_of_cons.
      rewrite Hkept by done. by apply lookup_delete_ne.
Qed.

Lemma list_destroy_spec m L cb l :
  is_list m L cb l →
  ∃ m', list_destroy L m = Ok 0 m' ∧
        lists m' !! L = None ∧
        released m' = released m ++ release_calls (cb_free cb) l ∧
        ∀ p, p ∈ l.*1 → nodes m' !! p = None.
Proof.
  intros (HL & Hlt & Hlen & Hnd & Hd). destruct m as [nd ls its rel b]. mem_simpl.
  destruct (destroy_loop_spec ls its b L _ l NULL nd rel HL Hlt Hd Hnd)
    as (nd' & Hrun & Hgone & _).
  cbn [list_free] in Hrun.
  eexists. split_and!.
  - unfold list_destroy. rewrite is_null_ne by done.
    eapply bind_ok; [run|]. mem_simpl. eapply bind_ok; [run|]. mem_simpl.
    rewrite Nat2Z.id. eapply bind_ok; [exact Hrun|]. run.
  - mem_simpl. apply lookup_delete_eq.
  - reflexivity.
  - exact Hgone.
Qed.

(** ** C6: null handles *)

(** C6, refuted as stated: [list_iterator_new] and [list_iterator_next]
    read their handle without a test, so a null handle is a null
    dereference and not a failure result. *)
Lemma iterator_null_handle_faults :
  list_iterator_new NULL LIST_HEAD (empty_mem 1) = Fault ∧
  list_iterator_new NULL LIST_TAIL (empty_mem 1) = Fault ∧
  list_iterator_next NULL (empty_mem 1) = Fault.
Proof. split_and!; reflexivity. Qed.

(** C6, amended.  The functions that test their handles answer a null list
    or node handle with their failure result ([-1] or [NULL]) and change
    nothing: [list_remove], [list_destroy], [list_rpush], [list_lpush],
    [list_rpop], [list_lpop], [list_find], [list_at], [list_push_asc] and
    [list_push_desc]; [list_node_new] refuses a null value likewise, and
    [list_iterator_destroy] of a null iterator does nothing.  The two
    iterator functions that read a handle, [list_iterator_new] and
    [list_iterator_next], do not test it: on a null handle they
    dereference it. *)
Theorem null_handles (m : mem) (self node v i : Z) (d : list_direction_t) :
  list_remove NULL node m = Ok (-1) m ∧
  list_remove self NULL m = Ok (-1) m ∧
  list_destroy NULL m = Ok (-1) m ∧
  list_rpush NULL node m = Ok NULL m ∧
  list_rpush self NULL m = Ok NULL m ∧
  list_lpush NULL node m = Ok NULL m ∧
  list_lpush self NULL m = Ok NULL m ∧
  list_rpop NULL m = Ok NULL m ∧
  list_lpop NULL m = Ok NULL m ∧
  list_find NULL v m = Ok NULL m ∧
  list_at NULL i m = Ok NULL m ∧
  list_push_asc NULL node m = Ok NULL m ∧
  list_push_asc self NULL m = Ok NULL m ∧
  list_push_desc NULL node m = Ok NULL m ∧
  list_push_desc self NULL m = Ok NULL m ∧
  list_node_new NULL m = Ok NULL m ∧
  list_iterator_destroy NULL m = Ok tt m ∧
  list_iterator_new NULL d m = Fault ∧
  list_iterator_next NULL m = Fault.
Proof.
  split_and!; try reflexivity;
    try (unfold list_remove, list_rpush, list_lpush, list_push_asc,
           list_push_desc, push_ordered;
         by destruct (is_null self)).
  by destruct d.
Qed.

(** ** C7: the callbacks of a new list *)

(** Without a release callback neither [list_remove] nor [list_destroy]
    calls one. *)
Lemma no_release_without_callback m L cb l1 p v l2 :
  cb_free cb = None → is_list m L cb (l1 ++ (p, v) :: l2) →
  (∃ m', list_remove L p m = Ok 0 m' ∧ released m' = released m) ∧
  (∃ m', list_destroy L m = Ok 0 m' ∧ released m' = released m).
Proof.
  intros Hf Hl. split.
  - destruct (list_remove_spec m L cb l1 p v l2 Hl) as (m' & Hrun & _ & _ & Hrel & _).
    exists m'. split; [done|]. by rewrite Hrel, Hf, app_nil_r.
  - destruct (list_destroy_spec m L cb _ Hl) as (m' & Hrun & _ & Hrel & _).
    exists m'. split; [done|]. by rewrite Hrel, Hf, app_nil_r.
Qed.

(** C7.  [list_new] of list.c makes an empty list with no callback; the
    inline [list_new] of list.h makes an empty list whose release callback
    is [LIST_FREE], with no match and no compare callback. *)
Theorem list_new_callbacks (m : mem) (b : nat) :
  budget m = S b →
  (∃ L m', list_new m = Ok L m' ∧ is_list m' L no_callbacks []) ∧
  (∃ L m', list_new_inline m = Ok L m' ∧
           is_list m' L (Callbacks (Some LIST_FREE) None None) []).
Proof.
  intros Hb. split.
  - eexists _, _. split; [by apply list_new_spec|].
    apply is_list_new; [apply fresh_addr_nonnull|]. mem_simpl.
    apply lookup_insert_eq.
  - eexists _, _. split; [by apply list_new_inline_spec|].
    apply is_list_new; [apply fresh_addr_nonnull|]. mem_simpl.
    apply lookup_insert_eq.
Qed.

Lemma list_new_callbacks_witness :
  (∃ L m', list_new (empty_mem 1) = Ok L m' ∧ is_list m' L no_callbacks []) ∧
  (∃ L m', list_new_inline (empty_mem 1) = Ok L m' ∧
           is_list m' L (Callbacks (Some LIST_FREE) None None) []).
Proof. by apply (list_new_callbacks (empty_mem 1) 0). Defined.

(** With [list_new] of list.c no release function is called; with the
    inline [list_new] of list.h, [LIST_FREE] is called on the value. *)
Example list_new_then_remove :
  (match new_push_remove list_new 7 (empty_mem 2) with
   | Ok r _ => Some r
   | _ => None
   end = Some []) ∧
  (match new_push_remove list_new_inline 7 (empty_mem 2) with
   | Ok r _ => Some r
   | _ => None
   end = Some [(LIST_FREE, 7)]).
Proof. split; vm_compute; reflexivity. Qed.

(** ** C8: [list_at] *)

Lemma fmap_fst_rev (l : list (Z * Z)) : (rev l).*1 = rev l.*1.
Proof.
  induction l as [|c l IH]; [done|].
  cbn [rev]. rewrite fmap_app, IH. reflexivity.
Qed.

(** With the allocator exhausted an index in range is a fault: the iterator
    is null and [list_at] does not test it. *)
Lemma list_at_exhausted m L cb l i :
  is_list m L cb l → budget m = O →
  - Z.of_nat (length l) ≤ i < Z.of_nat (length l) →
  list_at L i m = Fault.
Proof.
  intros (HL & Hlt & Hlen & Hnd & Hd) Hb Hi.
  unfold list_at. rewrite is_null_ne by done. cbn zeta.
  eapply bind_ok; [run|]. mem_simpl.
  destruct (Z.ltb_spec i 0) as [Hneg|Hpos].
  - replace (wrap32 (Z.lnot i) <? Z.of_nat (length l)) with true
      by (symmetry; apply Z.ltb_lt; unfold Z.lnot; rewrite wrap32_small; lia).
    eapply bind_ok; [by eapply list_iterator_new_exhausted|]. reflexivity.
  - replace (wrap32 i <? Z.of_nat (length l)) with true
      by (symmetry; apply Z.ltb_lt; rewrite wrap32_small; lia).
    eapply bind_ok; [by eapply list_iterator_new_exhausted|]. reflexivity.
Qed.

(** C8.  On a list of [N] nodes, for an [int] index [i]: with
    [0 <= i < N], [list_at] returns the node at offset [i] from the head;
    with [-N <= i < 0], the node at offset [~i] from the tail; otherwise
    [NULL].  A lookup in range makes and releases an iterator, which the
    allocator must grant. *)
Theorem list_at_index (m : mem) (L : Z) (cb : callbacks) (l : list (Z * Z))
  (i : Z) (b : nat) :
  is_list m L cb l → - 2 ^ 31 ≤ i < 2 ^ 31 →
  (0 ≤ i < Z.of_nat (length l) → budget m = S b →
   ∃ p, l.*1 !! Z.to_nat i = Some p ∧ p ≠ NULL ∧
        list_at L i m = Ok p (with_budget m b)) ∧
  (- Z.of_nat (length l) ≤ i < 0 → budget m = S b →
   ∃ p, rev l.*1 !! Z.to_nat (Z.lnot i) = Some p ∧ p ≠ NULL ∧
        list_at L i m = Ok p (with_budget m b)) ∧
  (i < - Z.of_nat (length l) ∨ Z.of_nat (length l) ≤ i →
   list_at L i m = Ok NULL m).
Proof.
  intros Hl Hint. pose proof Hl as (_ & _ & _ & _ & Hd). split_and!.
  - intros Hi Hb.
    destruct (lookup_lt_is_Some_2 l.*1 (Z.to_nat i)) as [p Hp];
      [rewrite length_fmap; lia|].
    exists p. split; [done|]. split.
    + eapply dll_live; [exact Hd|]. by eapply list_elem_of_lookup_2.
    + rewrite (list_at_in_range m L cb l i b) by (done || lia).
      replace (i <? 0) with false by (symmetry; apply Z.ltb_ge; lia).
      by rewrite (nth_ptr_lookup _ _ _ Hp).
  - intros Hi Hb.
    assert (0 ≤ Z.lnot i < Z.of_nat (length l)) by (unfold Z.lnot; lia).
    destruct (lookup_lt_is_Some_2 (rev l.*1) (Z.to_nat (Z.lnot i))) as [p Hp];
      [rewrite length_rev, length_fmap; lia|].
    exists p. split; [done|]. split.
    + eapply dll_live; [exact Hd|].
      apply list_elem_of_In, in_rev, list_elem_of_In.
      by eapply list_elem_of_lookup_2.
    + rewrite (list_at_in_range m L cb l i b) by (done || lia).
      replace (i <? 0) with true by (symmetry; apply Z.ltb_lt; lia).
      rewrite <- fmap_fst_rev in Hp. by rewrite (nth_ptr_lookup _ _ _ Hp).
  - intros Hi. by eapply list_at_out_of_range.
Qed.

Lemma abc_mem_is_list : is_list abc_mem 1 no_callbacks [(1, 10); (2, 20); (3, 30)].
Proof.
  split_and!; try done.
  - cbn. apply NoDup_ListNoDup. repeat (constructor; [cbn; lia|]). constructor.
  - repeat (apply dll_cons; split_and!; try done). apply dll_nil.
Qed.

Lemma list_at_index_witness :
  ∃ p, [1; 2; 3] !! Z.to_nat 2 = Some p ∧ p ≠ NULL ∧
       list_at 1 2 abc_mem = Ok p (with_budget abc_mem 0).
Proof.
  apply (proj1 (list_at_index abc_mem 1 no_callbacks [(1, 10); (2, 20); (3, 30)]
                  2 0 abc_mem_is_list ltac:(cbn; lia))); [cbn; lia|reflexivity].
Defined.

(** The example of the specification, run: [at(0)] is [a], [at(-1)] is [c],
    [at(3)] and [at(-4)] are empty. *)
Example list_at_abc :
  let at_ i := match list_at 1 i abc_mem with Ok p _ => Some p | _ => None end in
  at_ 0 = Some 1 ∧ at_ (-1) = Some 3 ∧ at_ 3 = Some NULL ∧ at_ (-4) = Some NULL ∧
  at_ 1 = Some 2 ∧ at_ 2 = Some 3 ∧ at_ (-2) = Some 2 ∧ at_ (-3) = Some 1.
Proof. vm_compute. split_and!; reflexivity. Qed.

(** ** C9 and C10: the pops *)

(** C9.  On a non-empty list [list_rpop] detaches and returns the tail node
    and [list_lpop] the head node, the node keeps its value, and no release
    callback is called whatever callbacks are installed; on an empty list
    both return [NULL] and change nothing. *)
Theorem pop_no_release (m : mem) (L : Z) (cb : callbacks) (l : list (Z * Z))
  (p v : Z) :
  (is_list m L cb [] → list_rpop L m = Ok NULL m ∧ list_lpop L m = Ok NULL m) ∧
  (is_list m L cb (l ++ [(p, v)]) →
   ∃ m' n, list_rpop L m = Ok p m' ∧ is_list m' L cb l ∧
           released m' = released m ∧
           nodes m' !! p = Some n ∧ node_val n = v) ∧
  (is_list m L cb ((p, v) :: l) →
   ∃ m' n, list_lpop L m = Ok p m' ∧ is_list m' L cb l ∧
           released m' = released m ∧
           nodes m' !! p = Some n ∧ node_val n = v).
Proof.
  split_and!.
  - intros Hl. split; [by eapply list_rpop_empty|by eapply list_lpop_empty].
  - intros Hl.
    destruct (list_rpop_spec m L cb l p v Hl) as (m' & Hrun & Hl' & Hn & Hrel & _).
    by exists m', (Node NULL NULL v).
  - intros Hl.
    destruct (list_lpop_spec m L cb l p v Hl) as (m' & Hrun & Hl' & Hn & Hrel & _).
    by exists m', (Node NULL NULL v).
Qed.

Lemma abc_free_mem_is_list :
  is_list abc_free_mem 1 (Callbacks (Some LIST_FREE) None None)
    [(1, 10); (2, 20); (3, 30)].
Proof.
  split_and!; try done.
  - cbn. apply NoDup_ListNoDup. repeat (constructor; [cbn; lia|]). constructor.
  - repeat (apply dll_cons; split_and!; try done). apply dll_nil.
Qed.

Lemma pop_no_release_witness :
  ∃ m' n, list_rpop 1 abc_free_mem = Ok 3 m' ∧
          is_list m' 1 (Callbacks (Some LIST_FREE) None None) [(1, 10); (2, 20)] ∧
          released m' = released abc_free_mem ∧
          nodes m' !! 3 = Some n ∧ node_val n = 30.
Proof.
  apply (pop_no_release abc_free_mem 1 (Callbacks (Some LIST_FREE) None None)
           [(1, 10); (2, 20)] 3 30).
  apply abc_free_mem_is_list.
Defined.

(** C10.  The node a pop returns has both its links null. *)
Theorem pop_detaches (m : mem) (L : Z) (cb : callbacks) (l : list (Z * Z))
  (p v : Z) :
  (is_list m L cb (l ++ [(p, v)]) →
   ∃ m' n, list_rpop L m = Ok p m' ∧ nodes m' !! p = Some n ∧
           node_prev n = NULL ∧ node_next n = NULL) ∧
  (is_list m L cb ((p, v) :: l) →
   ∃ m' n, list_lpop L m = Ok p m' ∧ nodes m' !! p = Some n ∧
           node_prev n = NULL ∧ node_next n = NULL).
Proof.
  split; intros Hl.
  - destruct (list_rpop_spec m L cb l p v Hl) as (m' & Hrun & _ & Hn & _).
    by exists m', (Node NULL NULL v).
  - destruct (list_lpop_spec m L cb l p v Hl) as (m' & Hrun & _ & Hn & _).
    by exists m', (Node NULL NULL v).
Qed.

Lemma pop_detaches_witness :
  ∃ m' n, list_lpop 1 abc_mem = Ok 1 m' ∧ nodes m' !! 1 = Some n ∧
          node_prev n = NULL ∧ node_next n = NULL.
Proof.
  apply (pop_detaches abc_mem 1 no_callbacks [(2, 20); (3, 30)] 1 10).
  apply abc_mem_is_list.
Defined.

(** ** [list_find] *)

Lemma find_loop_spec nd ls rel b L it lt v l : ∀ prv its fuel,
  L ≠ NULL → ls !! L = Some lt → it ≠ NULL →
  dll nd prv l NULL →
  its !! it = Some (Iter (hd_ptr l NULL) LIST_HEAD) →
  (length l < fuel)%nat →
  find_loop fuel L it v (Mem nd ls its rel b) =
  Ok (find_first (list_match lt) v l) (Mem nd ls (delete it its) rel b).
Proof.
  induction l as [|[q a] l IH]; intros prv its fuel HL Hlt Hit Hd Hi Hfuel.
  - destruct fuel as [|fuel]; [cbn in Hfuel; lia|]. cbn [find_loop find_first].
    eapply bind_ok; [by eapply list_iterator_next_end|]. cbn.
    eapply bind_ok; [by eapply list_iterator_destroy_spec|]. reflexivity.
  - destruct fuel as [|fuel]; [cbn in Hfuel; lia|]. cbn [length] in Hfuel.
    apply dll_cons in Hd as (Hq & Hqn & Hd). cbn [hd_ptr] in Hi.
    cbn [find_loop find_first].
    eapply bind_ok; [by eapply list_iterator_next_step|].
    rewrite is_null_ne by done. mem_simpl.
    eapply bind_ok; [run|]. mem_simpl. eapply bind_ok; [run|]. mem_simpl.
    fold (find_hit (list_match lt) v a).
    destruct (find_hit (list_match lt) v a).
    + eapply bind_ok; [eapply list_iterator_destroy_spec; [done|]|].
      { mem_simpl. apply lookup_insert_eq. }
      mem_simpl. by rewrite delete_insert_eq.
    + erewrite (IH q); try done; [by rewrite delete_insert_eq| |lia].
      by rewrite lookup_insert_eq.
Qed.

Lemma list_find_spec m L cb l v b :
  is_list m L cb l → budget m = S b →
  list_find L v m = Ok (find_first (cb_match cb) v l) (with_budget m b).
Proof.
  intros (HL & Hlt & Hlen & Hnd & Hd) Hb.
  pose proof (fresh_addr_nonnull (iters m)) as Hit.
  pose proof (fresh_addr_fresh (iters m)) as Hfresh.
  pose proof (dll_length_le_size _ _ _ _ Hnd Hd) as Hsize.
  unfold list_find. rewrite is_null_ne by done.
  eapply bind_ok; [by eapply list_iterator_new_spec|]. mem_simpl.
  destruct m as [nd ls its rel b0]. mem_simpl.
  erewrite (find_loop_spec nd ls rel b L _ _ v l NULL); try done.
  - cbn [list_match]. by rewrite delete_insert_eq, delete_id.
  - by rewrite lookup_insert_eq.
  - lia.
Qed.

Lemma find_first_split mt v l :
  (find_first mt v l = NULL ∧ Forall (λ c, find_hit mt v c.2 = false) l) ∨
  ∃ l1 a l2,
    l = l1 ++ (find_first mt v l, a) :: l2 ∧ find_hit mt v a = true ∧
    Forall (λ c, find_hit mt v c.2 = false) l1.
Proof.
  induction l as [|[q a] l IH]; [by left|].
  cbn [find_first]. destruct (find_hit mt v a) eqn:Hh.
  - right. by exists [], a, l.
  - destruct IH as [[Hn Hall]|(l1 & a' & l2 & Hl & Hh' & Hall)].
    + left. split; [done|]. by constructor.
    + right. exists ((q, a) :: l1), a', l2. split_and!; try done.
      * cbn. by rewrite <- Hl.
      * by constructor.
Qed.

(** [list_find] returns the first node of the chain whose value passes the
    test (the match callback, or equality of handles without one): every
    node before it fails the test; it returns [NULL] exactly when no node
    passes.  The list is left as it was; one allocation is spent on the
    iterator. *)
Theorem list_find_first (m : mem) (L : Z) (cb : callbacks) (l : list (Z * Z))
  (v : Z) (b : nat) :
  is_list m L cb l → budget m = S b →
  ∃ r,
    list_find L v m = Ok r (with_budget m b) ∧
    (r = NULL → Forall (λ c, find_hit (cb_match cb) v c.2 = false) l) ∧
    (r ≠ NULL →
     ∃ l1 a l2,
       l = l1 ++ (r, a) :: l2 ∧ find_hit (cb_match cb) v a = true ∧
       Forall (λ c, find_hit (cb_match cb) v c.2 = false) l1).
Proof.
  intros Hl Hb. exists (find_first (cb_match cb) v l).
  split; [by eapply list_find_spec|].
  destruct (find_first_split (cb_match cb) v l)
    as [[Hn Hall]|(l1 & a & l2 & Heq & Hh & Hall)].
  - split; [done|]. by rewrite Hn.
  - assert (find_first (cb_match cb) v l ≠ NULL) as Hnz.
    { destruct Hl as (_ & _ & _ & _ & Hd). rewrite Heq in Hd.
      by apply dll_lookup in Hd as [Hp _]. }
    split; [done|]. intros _. by exists l1, a, l2.
Qed.

Lemma list_find_first_witness :
  ∃ r,
    list_find 1 20 abc_mem = Ok r (with_budget abc_mem 0) ∧
    (r = NULL →
     Forall (λ c, find_hit None 20 c.2 = false) [(1, 10); (2, 20); (3, 30)]) ∧
    (r ≠ NULL →
     ∃ l1 a l2,
       [(1, 10); (2, 20); (3, 30)] = l1 ++ (r, a) :: l2 ∧
       find_hit None 20 a = true ∧
       Forall (λ c, find_hit None 20 c.2 = false) l1).
Proof.
  apply (list_find_first abc_mem 1 no_callbacks [(1, 10); (2, 20); (3, 30)] 20 0
           abc_mem_is_list eq_refl).
Defined.

Example list_find_abc :
  let find_ v := match list_find 1 v abc_mem with Ok p _ => Some p | _ => None end in
  find_ 10 = Some 1 ∧ find_ 20 = Some 2 ∧ find_ 30 = Some 3 ∧ find_ 99 = Some NULL.
Proof. vm_compute. split_and!; reflexivity. Qed.

(** ** Traversals *)

Lemma drain_forward nd ls rel b it l : ∀ prv its fuel,
  it ≠ NULL → dll nd prv l NULL →
  its !! it = Some (Iter (hd_ptr l NULL) LIST_HEAD) →
  (length l < fuel)%nat →
  drain fuel it (Mem nd ls its rel b) =
  Ok l.*1 (Mem nd ls (<[it := Iter NULL LIST_HEAD]> its) rel b).
Proof.
  induction l as [|[q a] l IH]; intros prv its fuel Hit Hd Hi Hfuel.
  - destruct fuel as [|fuel]; [cbn in Hfuel; lia|]. cbn [drain].
    eapply bind_ok; [by eapply list_iterator_next_end|]. cbn.
    by rewrite insert_id.
  - destruct fuel as [|fuel]; [cbn in Hfuel; lia|]. cbn [length] in Hfuel.
    apply dll_cons in Hd as (Hq & Hqn & Hd). cbn [hd_ptr] in Hi. cbn [drain].
    eapply bind_ok; [by eapply list_iterator_next_step|].
    rewrite is_null_ne by done. mem_simpl.
    eapply bind_ok; [eapply (IH q); try done|].
    + by rewrite lookup_insert_eq.
    + lia.
    + by rewrite insert_insert_eq.
Qed.

Lemma drain_backward nd ls rel b it l : ∀ nx its fuel,
  it ≠ NULL → dll nd NULL l nx →
  its !! it = Some (Iter (last_ptr l NULL) LIST_TAIL) →
  (length l < fuel)%nat →
  drain fuel it (Mem nd ls its rel b) =
  Ok (rev l.*1) (Mem nd ls (<[it := Iter NULL LIST_TAIL]> its) rel b).
Proof.
  induction l as [|[q a] l IH] using rev_ind; intros nx its fuel Hit Hd Hi Hfuel.
  - destruct fuel as [|fuel]; [cbn in Hfuel; lia|]. cbn [drain].
    eapply bind_ok; [by eapply list_iterator_next_end|]. cbn.
    by rewrite insert_id.
  - destruct fuel as [|fuel]; [rewrite length_app in Hfuel; cbn in Hfuel; lia|].
    rewrite length_app in Hfuel. cbn [length] in Hfuel.
    apply dll_snoc in Hd as (Hd & Hq & Hqn). rewrite last_ptr_snoc in Hi.
    rewrite fmap_app. change ([(q, a)].*1) with [q]. rewrite rev_unit.
    cbn [drain].
    eapply bind_ok; [by eapply list_iterator_next_step|].
    rewrite is_null_ne by done. mem_simpl.
    eapply bind_ok; [eapply (IH q); try done|].
    + by rewrite lookup_insert_eq.
    + lia.
    + by rewrite insert_insert_eq.
Qed.

(** A traversal from the head yields every node of the chain once, in
    order, and then ends; from the tail, in the reverse order.  It changes
    neither the list nor a node, and its iterator is released: only one
    allocation is spent, so a second traversal yields the same nodes. *)
Theorem traverse_yields_chain (m : mem) (L : Z) (cb : callbacks)
  (l : list (Z * Z)) (b : nat) :
  is_list m L cb l → budget m = S b →
  traverse L LIST_HEAD m = Ok l.*1 (with_budget m b) ∧
  traverse L LIST_TAIL m = Ok (rev l.*1) (with_budget m b).
Proof.
  intros (HL & Hlt & Hlen & Hnd & Hd) Hb.
  pose proof (fresh_addr_nonnull (iters m)) as Hit.
  pose proof (fresh_addr_fresh (iters m)) as Hfresh.
  pose proof (dll_length_le_size _ _ _ _ Hnd Hd) as Hsize.
  destruct m as [nd ls its rel b0]. mem_simpl.
  split; unfold traverse.
  - eapply bind_ok; [by eapply list_iterator_new_spec|]. mem_simpl.
    eapply bind_ok; [eapply (drain_forward _ _ _ _ _ l NULL); try done|].
    + by rewrite lookup_insert_eq.
    + mem_simpl. lia.
    + eapply bind_ok; [eapply list_iterator_destroy_spec; [done|]|].
      { mem_simpl. apply lookup_insert_eq. }
      unfold ret. mem_simpl. by rewrite delete_fresh_insert.
  - eapply bind_ok; [by eapply list_iterator_new_spec|]. mem_simpl.
    eapply bind_ok; [eapply (drain_backward _ _ _ _ _ l NULL); try done|].
    + by rewrite lookup_insert_eq.
    + mem_simpl. lia.
    + eapply bind_ok; [eapply list_iterator_destroy_spec; [done|]|].
      { mem_simpl. apply lookup_insert_eq. }
      unfold ret. mem_simpl. by rewrite delete_fresh_insert.
Qed.

Lemma traverse_yields_chain_witness :
  traverse 1 LIST_HEAD abc_mem = Ok [1; 2; 3] (with_budget abc_mem 0) ∧
  traverse 1 LIST_TAIL abc_mem = Ok [3; 2; 1] (with_budget abc_mem 0).
Proof.
  apply (traverse_yields_chain abc_mem 1 no_callbacks [(1, 10); (2, 20); (3, 30)] 0
           abc_mem_is_list eq_refl).
Defined.

Lemma list_iterator_new_from_node_spec m node d b :
  budget m = S b →
  list_iterator_new_from_node node d m =
  Ok (fresh_addr (iters m))
     (Mem (nodes m) (lists m) (<[fresh_addr (iters m) := Iter node d]> (iters m))
        (released m) b).
Proof.
  intros Hb. unfold list_iterator_new_from_node.
  pose proof (fresh_addr_nonnull (iters m)) as Hp.
  eapply bind_ok; [unfold malloc_iter; rewrite Hb; reflexivity|].
  cbn beta zeta. rewrite is_null_ne by done.
  destruct m as [nd ls its rel b0]. mem_simpl.
  set (p := fresh_addr its) in *.
  etransitivity; [run|]. heap_norm. reflexivity.
Qed.

(** An iterator made by [list_iterator_new_from_node] on a node of a chain
    yields that node and the nodes after it, forward, or that node and the
    nodes before it in the reverse order, backward; made on the null node
    it yields nothing.  The memory is as before, one allocation apart. *)
Theorem traverse_from_node (m : mem) (L : Z) (cb : callbacks)
  (l1 l2 : list (Z * Z)) (p v : Z) (d : list_direction_t) (b : nat) :
  is_list m L cb (l1 ++ (p, v) :: l2) → budget m = S b →
  traverse_from p LIST_HEAD m = Ok (p :: l2.*1) (with_budget m b) ∧
  traverse_from p LIST_TAIL m = Ok (p :: rev l1.*1) (with_budget m b) ∧
  traverse_from NULL d m = Ok [] (with_budget m b).
Proof.
  intros (HL & Hlt & Hlen & Hnd & Hd) Hb.
  pose proof (fresh_addr_nonnull (iters m)) as Hit.
  pose proof (fresh_addr_fresh (iters m)) as Hfresh.
  pose proof (dll_length_le_size _ _ _ _ Hnd Hd) as Hsize.
  rewrite length_app in Hsize. cbn [length] in Hsize.
  destruct m as [nd ls its rel b0]. mem_simpl.
  split_and!; unfold traverse_from.
  - apply dll_app in Hd as [_ Hd2].
    eapply bind_ok; [by eapply list_iterator_new_from_node_spec|]. mem_simpl.
    eapply bind_ok;
      [eapply (drain_forward _ _ _ _ _ ((p, v) :: l2)); try done|].
    + by rewrite lookup_insert_eq.
    + mem_simpl. cbn [length]. lia.
    + eapply bind_ok; [eapply list_iterator_destroy_spec; [done|]|].
      { mem_simpl. apply lookup_insert_eq. }
      unfold ret. mem_simpl. by rewrite delete_fresh_insert.
  - replace (l1 ++ (p, v) :: l2) with ((l1 ++ [(p, v)]) ++ l2) in Hd
      by (by rewrite <- app_assoc).
    apply dll_app in Hd as [Hd1 _].
    eapply bind_ok; [by eapply list_iterator_new_from_node_spec|]. mem_simpl.
    eapply bind_ok;
      [eapply (drain_backward _ _ _ _ _ (l1 ++ [(p, v)])); try done|].
    + by rewrite lookup_insert_eq, last_ptr_snoc.
    + mem_simpl. rewrite length_app. cbn [length]. lia.
    + eapply bind_ok; [eapply list_iterator_destroy_spec; [done|]|].
      { mem_simpl. apply lookup_insert_eq. }
      unfold ret. mem_simpl. rewrite fmap_app.
      change ([(p, v)].*1) with [p]. rewrite rev_unit.
      by rewrite delete_fresh_insert.
  - eapply bind_ok; [by eapply list_iterator_new_from_node_spec|]. mem_simpl.
    cbn [drain].
    eapply bind_ok.
    { eapply bind_ok; [eapply list_iterator_next_end; [done|]|reflexivity].
      mem_simpl. apply lookup_insert_eq. }
    eapply bind_ok; [eapply list_iterator_destroy_spec; [done|]|].
    { mem_simpl. apply lookup_insert_eq. }
    unfold ret. mem_simpl. by rewrite delete_insert_eq, delete_id.
Qed.

Lemma traverse_from_node_witness :
  traverse_from 2 LIST_HEAD abc_mem = Ok [2; 3] (with_budget abc_mem 0) ∧
  traverse_from 2 LIST_TAIL abc_mem = Ok [2; 1] (with_budget abc_mem 0) ∧
  traverse_from NULL LIST_HEAD abc_mem = Ok [] (with_budget abc_mem 0).
Proof.
  apply (traverse_from_node abc_mem 1 no_callbacks [(1, 10)] [(3, 30)] 2 20
           LIST_HEAD 0 abc_mem_is_list eq_refl).
Defined.

(** ** Removal and destruction *)

(** [list_destroy] releases every node of the chain and the list itself,
    calls the release callback, if there is one, once on each value from
    head to tail, and touches no node outside the chain.  The handle is
    dead afterwards: a second [list_destroy] on it is a use after free. *)
Theorem list_destroy_releases_all (m : mem) (L : Z) (cb : callbacks)
  (l : list (Z * Z)) :
  is_list m L cb l →
  ∃ m',
    list_destroy L m = Ok 0 m' ∧
    lists m' !! L = None ∧
    (∀ p, p ∈ l.*1 → nodes m' !! p = None) ∧
    (∀ q, q ∉ l.*1 → nodes m' !! q = nodes m !! q) ∧
    released m' = released m ++ release_calls (cb_free cb) l ∧
    budget m' = budget m ∧
    list_destroy L m' = Fault.
Proof.
  intros (HL & Hlt & Hlen & Hnd & Hd). destruct m as [nd ls its rel b]. mem_simpl.
  destruct (destroy_loop_spec ls its b L _ l NULL nd rel HL Hlt Hd Hnd)
    as (nd' & Hrun & Hgone & Hkept).
  cbn [list_free] in Hrun.
  eexists. split_and!.
  - unfold list_destroy. rewrite is_null_ne by done.
    eapply bind_ok; [run|]. mem_simpl. eapply bind_ok; [run|]. mem_simpl.
    rewrite Nat2Z.id. eapply bind_ok; [exact Hrun|]. run.
  - mem_simpl. apply lookup_delete_eq.
  - exact Hgone.
  - exact Hkept.
  - reflexivity.
  - reflexivity.
  - unfold list_destroy. rewrite is_null_ne by done.
    unfold bind at 1. unfold get_len, bind, get_list. mem_simpl.
    by rewrite deref_ne, lookup_delete_eq.
Qed.

Lemma list_destroy_releases_all_witness :
  ∃ m',
    list_destroy 1 abc_free_mem = Ok 0 m' ∧
    lists m' !! 1 = None ∧
    (∀ p, p ∈ [1; 2; 3] → nodes m' !! p = None) ∧
    (∀ q, q ∉ [1; 2; 3] → nodes m' !! q = nodes abc_free_mem !! q) ∧
    released m' = [(LIST_FREE, 10); (LIST_FREE, 20); (LIST_FREE, 30)] ∧
    budget m' = 1%nat ∧
    list_destroy 1 m' = Fault.
Proof.
  apply (list_destroy_releases_all abc_free_mem 1
           (Callbacks (Some LIST_FREE) None None) [(1, 10); (2, 20); (3, 30)]
           abc_free_mem_is_list).
Defined.

(** [list_remove] of a node of the list takes it out of the chain and
    keeps the other nodes in their order; the list stays well formed, the
    node is released, the release callback, if there is one, is called
    once, on its value, and nothing is allocated.  The node is dead
    afterwards: removing it again is a use after free. *)
Theorem list_remove_member (m : mem) (L : Z) (cb : callbacks)
  (l1 l2 : list (Z * Z)) (p v : Z) :
  is_list m L cb (l1 ++ (p, v) :: l2) →
  ∃ m',
    list_remove L p m = Ok 0 m' ∧
    is_list m' L cb (l1 ++ l2) ∧
    invariants m' L ∧
    nodes m' !! p = None ∧
    released m' = released m ++ release_calls (cb_free cb) [(p, v)] ∧
    budget m' = budget m ∧
    (∀ q, q ∉ p :: (l1 ++ l2).*1 → nodes m' !! q = nodes m !! q) ∧
    list_remove L p m' = Fault.
Proof.
  intros Hl. pose proof Hl as (HL & _ & _ & _ & Hd).
  apply dll_lookup in Hd as [Hp _].
  destruct (list_remove_spec m L cb l1 p v l2 Hl)
    as (m' & Hrun & Hl' & Hgone & Hrel & Hb & _ & Hfr).
  exists m'. split_and!; try done.
  - by eapply is_list_invariants.
  - unfold list_remove. rewrite !is_null_ne by done. cbn [orb].
    unfold bind at 1. unfold get_prev, bind, get_node.
    by rewrite deref_ne, Hgone.
Qed.

Lemma list_remove_member_witness :
  ∃ m',
    list_remove 1 2 abc_free_mem = Ok 0 m' ∧
    is_list m' 1 (Callbacks (Some LIST_FREE) None None) [(1, 10); (3, 30)] ∧
    invariants m' 1 ∧
    nodes m' !! 2 = None ∧
    released m' = [(LIST_FREE, 20)] ∧
    budget m' = 1%nat ∧
    (∀ q, q ∉ [2; 1; 3] → nodes m' !! q = nodes abc_free_mem !! q) ∧
    list_remove 1 2 m' = Fault.
Proof.
  apply (list_remove_member abc_free_mem 1 (Callbacks (Some LIST_FREE) None None)
           [(1, 10)] [(3, 30)] 2 20 abc_free_mem_is_list).
Defined.

(** ** Pushes and pops *)

Lemma frame_trans m m1 m2 t : frame m m1 t → frame m1 m2 t → frame m m2 t.
Proof.
  intros (Hr1 & Hb1 & Hi1 & Hn1) (Hr2 & Hb2 & Hi2 & Hn2).
  split_and!; try congruence. intros q Hq. by rewrite Hn2, Hn1.
Qed.

(** A node pushed at an end and popped from the same end comes back, with
    both links null and its value, and the chain is what it was: no other
    node is touched outside the chain, nothing is allocated and no release
    callback is called. *)
Theorem push_pop_round_trip (m : mem) (L : Z) (cb : callbacks)
  (l : list (Z * Z)) (p : Z) (n : list_node_t) :
  is_list m L cb l → p ≠ NULL → nodes m !! p = Some n → p ∉ l.*1 →
  Z.of_nat (length l) + 1 < 2 ^ 32 →
  (∃ m', (list_rpush L p ;;; list_rpop L) m = Ok p m' ∧
         is_list m' L cb l ∧
         nodes m' !! p = Some (Node NULL NULL (node_val n)) ∧
         frame m m' (p :: l.*1)) ∧
  (∃ m', (list_lpush L p ;;; list_lpop L) m = Ok p m' ∧
         is_list m' L cb l ∧
         nodes m' !! p = Some (Node NULL NULL (node_val n)) ∧
         frame m m' (p :: l.*1)).
Proof.
  intros Hl Hp Hn Hout Hroom. split.
  - destruct (list_rpush_spec m L cb l p n Hl Hp Hn Hout Hroom)
      as (m1 & Hrun1 & Hl1 & Hfr1).
    destruct (list_rpop_spec m1 L cb l p _ Hl1) as (m2 & Hrun2 & Hl2 & Hn2 & Hfr2).
    exists m2. split_and!; try done.
    + eapply bind_ok; [exact Hrun1|exact Hrun2].
    + by eapply frame_trans.
  - destruct (list_lpush_spec m L cb l p n Hl Hp Hn Hout Hroom)
      as (m1 & Hrun1 & Hl1 & Hfr1).
    destruct (list_lpop_spec m1 L cb l p _ Hl1) as (m2 & Hrun2 & Hl2 & Hn2 & Hfr2).
    exists m2. split_and!; try done.
    + eapply bind_ok; [exact Hrun1|exact Hrun2].
    + by eapply frame_trans.
Qed.

Lemma abcd_mem_is_list b :
  is_list (abcd_mem b) 1 no_callbacks [(1, 10); (2, 20); (3, 30)].
Proof.
  split_and!; try done.
  - cbn. apply NoDup_ListNoDup. repeat (constructor; [cbn; lia|]). constructor.
  - repeat (apply dll_cons; split_and!; try done). apply dll_nil.
Qed.

Lemma push_pop_round_trip_witness :
  ∃ m', (list_rpush 1 4 ;;; list_rpop 1) (abcd_mem 0) = Ok 4 m' ∧
        is_list m' 1 no_callbacks [(1, 10); (2, 20); (3, 30)] ∧
        nodes m' !! 4 = Some (Node NULL NULL 40) ∧
        frame (abcd_mem 0) m' [4; 1; 2; 3].
Proof.
  apply (push_pop_round_trip (abcd_mem 0) 1 no_callbacks
           [(1, 10); (2, 20); (3, 30)] 4 (Node NULL NULL 40)
           (abcd_mem_is_list 0)); try done.
  cbn. apply not_elem_of_cons; split; [done|].
  apply not_elem_of_cons; split; [done|].
  apply not_elem_of_cons; split; [done|]. apply not_elem_of_nil.
Defined.

(** [list_node_new] refuses a null value and gives [NULL] when the
    allocator is exhausted, with nothing changed in either case; otherwise
    it returns a non-null address that was not live, now a node of the
    value with both links null, and changes no other node and no list. *)
Theorem list_node_new_fresh (m : mem) (v : Z) :
  list_node_new NULL m = Ok NULL m ∧
  (budget m = O → list_node_new v m = Ok NULL m) ∧
  (v ≠ NULL → budget m ≠ O →
   ∃ p m',
     list_node_new v m = Ok p m' ∧
     p ≠ NULL ∧ nodes m !! p = None ∧
     nodes m' !! p = Some (Node NULL NULL v) ∧
     (∀ q, q ≠ p → nodes m' !! q = nodes m !! q) ∧
     lists m' = lists m ∧ released m' = released m ∧
     budget m' = Nat.pred (budget m)).
Proof.
  split_and!.
  - apply list_node_new_null.
  - apply list_node_new_exhausted.
  - intros Hv Hb. destruct (budget m) as [|b] eqn:Eb; [done|].
    eexists _, _. split; [by apply list_node_new_spec|].
    mem_simpl. split_and!; try done.
    + apply fresh_addr_nonnull.
    + apply fresh_addr_fresh.
    + apply lookup_insert_eq.
    + intros q Hq. by apply lookup_insert_ne.
Qed.

Lemma list_node_new_fresh_witness :
  ∃ p m',
    list_node_new 50 (abcd_mem 1) = Ok p m' ∧
    p ≠ NULL ∧ nodes (abcd_mem 1) !! p = None ∧
    nodes m' !! p = Some (Node NULL NULL 50) ∧
    (∀ q, q ≠ p → nodes m' !! q = nodes (abcd_mem 1) !! q) ∧
    lists m' = lists (abcd_mem 1) ∧ released m' = released (abcd_mem 1) ∧
    budget m' = Nat.pred (budget (abcd_mem 1)).
Proof. by apply (list_node_new_fresh (abcd_mem 1) 50). Defined.

(** ** The iterator of a scan is not tested *)

Lemma push_ordered_exhausted brk m L cb l p :
  is_list m L cb l → l ≠ [] → p ≠ NULL → budget m = O →
  push_ordered brk L p m = Fault.
Proof.
  intros (HL & Hlt & Hlen & Hnd & Hd) Hl Hp Hb.
  unfold push_ordered. rewrite !is_null_ne by done. cbn [orb].
  eapply bind_ok; [run|]. mem_simpl.
  replace (0 =? Z.of_nat (length l)) with false
    by (symmetry; apply Z.eqb_neq; destruct l; [done|cbn [length]; lia]).
  eapply bind_ok; [by eapply list_iterator_new_exhausted|]. reflexivity.
Qed.

(** [list_find], [list_at] on an index in range and the ordered insertions
    into a non-empty list use the iterator they allocate without testing
    it: with the allocator exhausted they dereference a null iterator.
    ([list_at] out of range and an ordered insertion into an empty list
    allocate nothing.) *)
Theorem scan_without_memory_faults (m : mem) (L : Z) (cb : callbacks)
  (l : list (Z * Z)) (v i p : Z) :
  is_list m L cb l → budget m = O →
  list_find L v m = Fault ∧
  (- Z.of_nat (length l) ≤ i < Z.of_nat (length l) → list_at L i m = Fault) ∧
  (l ≠ [] → p ≠ NULL →
   list_push_asc L p m = Fault ∧ list_push_desc L p m = Fault).
Proof.
  intros Hl Hb. split_and!.
  - destruct Hl as (HL & Hlt & _). unfold list_find.
    rewrite is_null_ne by done.
    eapply bind_ok; [by eapply list_iterator_new_exhausted|]. reflexivity.
  - intros Hi. by eapply list_at_exhausted.
  - intros Hne Hp. split; by eapply push_ordered_exhausted.
Qed.

Lemma scan_without_memory_faults_witness :
  list_find 1 20 (abcd_mem 0) = Fault ∧
  (- Z.of_nat (length [(1, 10); (2, 20); (3, 30)]) ≤ 0
   < Z.of_nat (length [(1, 10); (2, 20); (3, 30)]) →
   list_at 1 0 (abcd_mem 0) = Fault) ∧
  ([(1, 10); (2, 20); (3, 30)] ≠ [] → 4 ≠ NULL →
   list_push_asc 1 4 (abcd_mem 0) = Fault ∧
   list_push_desc 1 4 (abcd_mem 0) = Fault).
Proof.
  apply (scan_without_memory_faults (abcd_mem 0) 1 no_callbacks
           [(1, 10); (2, 20); (3, 30)] 20 0 4 (abcd_mem_is_list 0) eq_refl).
Defined.

(** ** Ordered insertion with any callback *)

(** An ordered insertion adds the node and moves no other: the chain after
    it is the chain before with the node put in at one place, the nodes
    before it all failing the test that leaves the scan and the node after
    it, if there is one, passing it.  This holds whatever the compare
    callback answers. *)
Theorem ordered_insertion_place (m : mem) (L : Z) (cb : callbacks)
  (l : list (Z * Z)) (p : Z) (n : list_node_t) :
  is_list m L cb l → p ≠ NULL → nodes m !! p = Some n → p ∉ l.*1 →
  Z.of_nat (length l) + 1 < 2 ^ 32 →
  l = [] ∨ budget m ≠ O →
  (∃ m' l1 l2,
     list_push_asc L p m = Ok p m' ∧ l = l1 ++ l2 ∧
     is_list m' L cb (l1 ++ (p, node_val n) :: l2) ∧
     Forall (λ c, asc_break (cb_compare cb) c.2 (node_val n) = false) l1 ∧
     (l2 = [] ∨ ∃ q a l2', l2 = (q, a) :: l2' ∧
                           asc_break (cb_compare cb) a (node_val n) = true)) ∧
  (∃ m' l1 l2,
     list_push_desc L p m = Ok p m' ∧ l = l1 ++ l2 ∧
     is_list m' L cb (l1 ++ (p, node_val n) :: l2) ∧
     Forall (λ c, desc_break (cb_compare cb) c.2 (node_val n) = false) l1 ∧
     (l2 = [] ∨ ∃ q a l2', l2 = (q, a) :: l2' ∧
                           desc_break (cb_compare cb) a (node_val n) = true)).
Proof.
  intros Hl Hp Hn Hout Hroom Hbud. split.
  - destruct (push_ordered_spec asc_break m L cb l p n Hl Hp Hn Hout Hroom Hbud)
      as (m' & Hrun & Hl' & _).
    destruct (insert_ordered_split asc_break (cb_compare cb) (p, node_val n) l)
      as (l1 & l2 & Hsplit & Hins & Hall & Hl2).
    exists m', l1, l2. rewrite Hins in Hl'. by split_and!.
  - destruct (push_ordered_spec desc_break m L cb l p n Hl Hp Hn Hout Hroom Hbud)
      as (m' & Hrun & Hl' & _).
    destruct (insert_ordered_split desc_break (cb_compare cb) (p, node_val n) l)
      as (l1 & l2 & Hsplit & Hins & Hall & Hl2).
    exists m', l1, l2. rewrite Hins in Hl'. by split_and!.
Qed.

Lemma notin_abc (p : Z) : p ≠ 1 → p ≠ 2 → p ≠ 3 → p ∉ [(1, 10); (2, 20); (3, 30)].*1.
Proof.
  intros ???. cbn.
  repeat (apply not_elem_of_cons; split; [done|]). apply not_elem_of_nil.
Qed.

Lemma ordered_insertion_place_witness :
  ∃ m' l1 l2,
    list_push_asc 1 4 (abcd_mem 1) = Ok 4 m' ∧
    [(1, 10); (2, 20); (3, 30)] = l1 ++ l2 ∧
    is_list m' 1 no_callbacks (l1 ++ (4, 40) :: l2) ∧
    Forall (λ c, asc_break None c.2 40 = false) l1 ∧
    (l2 = [] ∨ ∃ q a l2', l2 = (q, a) :: l2' ∧ asc_break None a 40 = true).
Proof.
  apply (ordered_insertion_place (abcd_mem 1) 1 no_callbacks
           [(1, 10); (2, 20); (3, 30)] 4 (Node NULL NULL 40)
           (abcd_mem_is_list 1)); try done.
  - by apply notin_abc.
  - by right.
Defined.

(** With a compare callback that decides an order [R] ([list_push_asc]:
    the callback false on [(a, v)] gives [R a v], true gives [R v a];
    [list_push_desc]: the reverse), an ordered insertion into a chain sorted
    by [R] leaves a chain sorted by [R] that holds the old nodes and the new
    one. *)
Theorem ordered_insertion_callback_sorted (m : mem) (L : Z) (cb : callbacks)
  (cmp : Z → Z → Z) (R : Z → Z → Prop) (l : list (Z * Z)) (p : Z)
  (n : list_node_t) :
  is_list m L cb l → cb_compare cb = Some cmp →
  p ≠ NULL → nodes m !! p = Some n → p ∉ l.*1 →
  Z.of_nat (length l) + 1 < 2 ^ 32 →
  l = [] ∨ budget m ≠ O →
  Sorted R l.*2 →
  ((∀ a v, cmp a v = 0 → R a v) → (∀ a v, cmp a v ≠ 0 → R v a) →
   ∃ m' l', list_push_asc L p m = Ok p m' ∧ is_list m' L cb l' ∧
            Sorted R l'.*2 ∧ l' ≡ₚ (p, node_val n) :: l) ∧
  ((∀ a v, cmp a v ≠ 0 → R a v) → (∀ a v, cmp a v = 0 → R v a) →
   ∃ m' l', list_push_desc L p m = Ok p m' ∧ is_list m' L cb l' ∧
            Sorted R l'.*2 ∧ l' ≡ₚ (p, node_val n) :: l).
Proof.
  intros Hl Hc Hp Hn Hout Hroom Hbud Hs. split; intros H0 H1.
  - destruct (push_ordered_spec asc_break m L cb l p n Hl Hp Hn Hout Hroom Hbud)
      as (m' & Hrun & Hl' & _).
    eexists m', _. split_and!; [exact Hrun|exact Hl'| |apply insert_ordered_perm].
    apply insert_ordered_sorted; [| |done]; rewrite Hc; cbn; intros a v Hb.
    + apply H0. apply negb_false_iff in Hb. by apply Z.eqb_eq.
    + apply H1. apply negb_true_iff in Hb. by apply Z.eqb_neq.
  - destruct (push_ordered_spec desc_break m L cb l p n Hl Hp Hn Hout Hroom Hbud)
      as (m' & Hrun & Hl' & _).
    eexists m', _. split_and!; [exact Hrun|exact Hl'| |apply insert_ordered_perm].
    apply insert_ordered_sorted; [| |done]; rewrite Hc; cbn; intros a v Hb.
    + apply H0. by apply Z.eqb_neq.
    + apply H1. by apply Z.eqb_eq.
Qed.

Lemma abcd_gt_mem_is_list b :
  is_list (abcd_gt_mem b) 1 (Callbacks None None (Some compare_gt))
    [(1, 10); (2, 20); (3, 30)].
Proof.
  split_and!; try done.
  - cbn. apply NoDup_ListNoDup. repeat (constructor; [cbn; lia|]). constructor.
  - repeat (apply dll_cons; split_and!; try done). apply dll_nil.
Qed.

Lemma compare_gt_zero a v : compare_gt a v = 0 → a ≤ v.
Proof.
  unfold compare_gt. rewrite Z.gtb_ltb. destruct (Z.ltb_spec v a); [done|lia].
Qed.

Lemma compare_gt_nonzero a v : compare_gt a v ≠ 0 → v ≤ a.
Proof.
  unfold compare_gt. rewrite Z.gtb_ltb. destruct (Z.ltb_spec v a); [lia|done].
Qed.

Lemma ordered_insertion_callback_sorted_witness :
  ∃ m' l', list_push_asc 1 4 (abcd_gt_mem 1) = Ok 4 m' ∧
           is_list m' 1 (Callbacks None None (Some compare_gt)) l' ∧
           Sorted Z.le l'.*2 ∧ l' ≡ₚ (4, 25) :: [(1, 10); (2, 20); (3, 30)].
Proof.
  apply (ordered_insertion_callback_sorted (abcd_gt_mem 1) 1
           (Callbacks None None (Some compare_gt)) compare_gt Z.le
           [(1, 10); (2, 20); (3, 30)] 4 (Node NULL NULL 25)
           (abcd_gt_mem_is_list 1)); try done.
  - by apply notin_abc.
  - by right.
  - cbn. repeat (constructor; [|try (constructor; lia)]). constructor.
  - apply compare_gt_zero.
  - apply compare_gt_nonzero.
Defined.

Example push_asc_callback_runs :
  match list_push_asc 1 4 (abcd_gt_mem 1) with
  | Ok _ m => chain_of m 1
  | _ => []
  end = [(1, 10); (2, 20); (4, 25); (3, 30)].
Proof. vm_compute. reflexivity. Qed.

(** ** Indexing from either end *)

Lemma rev_lookup_fst (l : list (Z * Z)) (k : nat) :
  (k < length l)%nat → rev l.*1 !! k = l.*1 !! (length l - S k)%nat.
Proof.
  intros Hk. rewrite rev_alt. change (rev_append l.*1 []) with (reverse l.*1).
  rewrite reverse_lookup by (rewrite length_fmap; lia).
  by rewrite length_fmap.
Qed.

(** A negative index and the index counted from the head name the same
    node: [list_at(i)] is [list_at(N + i)] for [-N <= i < 0]. *)
Theorem list_at_negative_index (m : mem) (L : Z) (cb : callbacks)
  (l : list (Z * Z)) (i : Z) (b : nat) :
  is_list m L cb l → budget m = S b →
  - Z.of_nat (length l) ≤ i < 0 → Z.of_nat (length l) + i < 2 ^ 31 →
  list_at L i m = list_at L (Z.of_nat (length l) + i) m.
Proof.
  intros Hl Hb Hi Hint.
  rewrite (list_at_in_range m L cb l i b) by (done || lia).
  rewrite (list_at_in_range m L cb l (Z.of_nat (length l) + i) b) by (done || lia).
  replace (i <? 0) with true by (symmetry; apply Z.ltb_lt; lia).
  replace (Z.of_nat (length l) + i <? 0) with false
    by (symmetry; apply Z.ltb_ge; lia).
  f_equal.
  assert (Z.to_nat (Z.lnot i) < length l)%nat as Hk by (unfold Z.lnot; lia).
  destruct (lookup_lt_is_Some_2 (rev l.*1) (Z.to_nat (Z.lnot i))) as [p Hp];
    [rewrite length_rev, length_fmap; lia|].
  pose proof Hp as Hp'. rewrite rev_lookup_fst in Hp' by done.
  replace (length l - S (Z.to_nat (Z.lnot i)))%nat
    with (Z.to_nat (Z.of_nat (length l) + i)) in Hp' by (unfold Z.lnot; lia).
  rewrite <- fmap_fst_rev in Hp.
  by rewrite (nth_ptr_lookup _ _ _ Hp), (nth_ptr_lookup _ _ _ Hp').
Qed.

Lemma list_at_negative_index_witness :
  list_at 1 (-2) abc_mem = list_at 1 (Z.of_nat 3 + -2) abc_mem.
Proof.
  apply (list_at_negative_index abc_mem 1 no_callbacks
           [(1, 10); (2, 20); (3, 30)] (-2) 0 abc_mem_is_list eq_refl);
    cbn; lia.
Defined.

(** ** A pushed node is found where it was put *)

Lemma find_first_app_miss mt v l l' :
  Forall (λ c, find_hit mt v c.2 = false) l →
  find_first mt v (l ++ l') = find_first mt v l'.
Proof.
  induction 1 as [|[q a] l Hq Hall IH]; [done|].
  cbn [app find_first]. cbn in Hq. by rewrite Hq.
Qed.

(** After [list_lpush] the node is at index 0 and after [list_rpush] at
    index -1; and without a match callback [list_find] on the value of a
    node just pushed at the tail returns that node when no node of the
    chain already had the value. *)
Theorem pushed_node_lookup (m : mem) (L : Z) (cb : callbacks)
  (l : list (Z * Z)) (p : Z) (n : list_node_t) (b : nat) :
  is_list m L cb l → p ≠ NULL → nodes m !! p = Some n → p ∉ l.*1 →
  Z.of_nat (length l) + 1 < 2 ^ 32 → budget m = S b →
  (∃ m', (list_lpush L p ;;; list_at L 0) m = Ok p m') ∧
  (∃ m', (list_rpush L p ;;; list_at L (-1)) m = Ok p m') ∧
  (cb_match cb = None → node_val n ∉ l.*2 →
   ∃ m', (list_rpush L p ;;; list_find L (node_val n)) m = Ok p m').
Proof.
  intros Hl Hp Hn Hout Hroom Hb. split_and!.
  - destruct (list_lpush_spec m L cb l p n Hl Hp Hn Hout Hroom)
      as (m1 & Hrun1 & Hl1 & _ & Hb1 & _).
    eexists. eapply bind_ok; [exact Hrun1|].
    rewrite (list_at_in_range m1 L cb _ 0 b Hl1) by (cbn [length]; lia).
    reflexivity.
  - destruct (list_rpush_spec m L cb l p n Hl Hp Hn Hout Hroom)
      as (m1 & Hrun1 & Hl1 & _ & Hb1 & _).
    eexists. eapply bind_ok; [exact Hrun1|].
    rewrite (list_at_in_range m1 L cb _ (-1) b Hl1)
      by (rewrite ?length_app; cbn [length]; lia).
    cbn [Z.ltb Z.compare Z.lnot Z.pred Z.add Z.opp Z.to_nat Pos.pred_double].
    by rewrite rev_unit.
  - intros Hmt Hfresh.
    destruct (list_rpush_spec m L cb l p n Hl Hp Hn Hout Hroom)
      as (m1 & Hrun1 & Hl1 & _ & Hb1 & _).
    eexists. eapply bind_ok; [exact Hrun1|].
    rewrite (list_find_spec m1 L cb _ (node_val n) b Hl1) by lia.
    rewrite Hmt, find_first_app_miss.
    + cbn. by rewrite Z.eqb_refl.
    + apply Forall_forall. intros [q a] Hin. cbn.
      apply Z.eqb_neq. intros ->. apply Hfresh.
      apply list_elem_of_fmap. by exists (q, node_val n).
Qed.

Lemma pushed_node_lookup_witness :
  ∃ m', (list_rpush 1 4 ;;; list_find 1 40) (abcd_mem 1) = Ok 4 m'.
Proof.
  apply (pushed_node_lookup (abcd_mem 1) 1 no_callbacks
           [(1, 10); (2, 20); (3, 30)] 4 (Node NULL NULL 40) 0
           (abcd_mem_is_list 1)); try done.
  - by apply notin_abc.
  - cbn. repeat (apply not_elem_of_cons; split; [done|]). apply not_elem_of_nil.
Defined.

(** ** Emptying and filling a list *)

Lemma pop_n_lpop L cb l : ∀ m,
  is_list m L cb l →
  ∃ m', pop_n list_lpop L (length l) m = Ok l.*1 m' ∧
        is_list m' L cb [] ∧ released m' = released m ∧ budget m' = budget m.
Proof.
  induction l as [|[p v] l IH]; intros m Hl.
  - by exists m.
  - destruct (list_lpop_spec m L cb l p v Hl) as (m1 & Hrun & Hl1 & _ & Hr & Hb & _).
    destruct (IH m1 Hl1) as (m' & Hruns & Hl' & Hr' & Hb').
    exists m'. split_and!; try congruence.
    cbn [length pop_n]. eapply bind_ok; [exact Hrun|].
    eapply bind_ok; [exact Hruns|]. reflexivity.
Qed.

Lemma pop_n_rpop L cb l : ∀ m,
  is_list m L cb l →
  ∃ m', pop_n list_rpop L (length l) m = Ok (rev l.*1) m' ∧
        is_list m' L cb [] ∧ released m' = released m ∧ budget m' = budget m.
Proof.
  induction l as [|[p v] l IH] using rev_ind; intros m Hl.
  - by exists m.
  - destruct (list_rpop_spec m L cb l p v Hl) as (m1 & Hrun & Hl1 & _ & Hr & Hb & _).
    destruct (IH m1 Hl1) as (m' & Hruns & Hl' & Hr' & Hb').
    exists m'. split_and!; try congruence.
    rewrite length_app, Nat.add_1_r, fmap_app.
    change ([(p, v)].*1) with [p]. rewrite rev_unit. cbn [pop_n].
    eapply bind_ok; [exact Hrun|].
    eapply bind_ok; [exact Hruns|]. reflexivity.
Qed.

(** As many [list_lpop] as the list has nodes return its nodes from head to
    tail, and as many [list_rpop] return them from tail to head; the list
    is then empty, a further pop returns [NULL], and no release callback
    was called nor anything allocated. *)
Theorem pop_all_order (m : mem) (L : Z) (cb : callbacks) (l : list (Z * Z)) :
  is_list m L cb l →
  (∃ m', pop_n list_lpop L (length l) m = Ok l.*1 m' ∧
         is_list m' L cb [] ∧ list_lpop L m' = Ok NULL m' ∧
         released m' = released m ∧ budget m' = budget m) ∧
  (∃ m', pop_n list_rpop L (length l) m = Ok (rev l.*1) m' ∧
         is_list m' L cb [] ∧ list_rpop L m' = Ok NULL m' ∧
         released m' = released m ∧ budget m' = budget m).
Proof.
  intros Hl. split.
  - destruct (pop_n_lpop L cb l m Hl) as (m' & Hrun & Hl' & Hr & Hb).
    exists m'. split_and!; try done. by eapply list_lpop_empty.
  - destruct (pop_n_rpop L cb l m Hl) as (m' & Hrun & Hl' & Hr & Hb).
    exists m'. split_and!; try done. by eapply list_rpop_empty.
Qed.

Lemma pop_all_order_witness :
  ∃ m', pop_n list_rpop 1 (length [(1, 10); (2, 20); (3, 30)]) abc_free_mem =
          Ok [3; 2; 1] m' ∧
        is_list m' 1 (Callbacks (Some LIST_FREE) None None) [] ∧
        list_rpop 1 m' = Ok NULL m' ∧
        released m' = released abc_free_mem ∧ budget m' = budget abc_free_mem.
Proof.
  apply (pop_all_order abc_free_mem 1 (Callbacks (Some LIST_FREE) None None)
           [(1, 10); (2, 20); (3, 30)] abc_free_mem_is_list).
Defined.

Lemma entries_fst pn : (entries pn).*1 = pn.*1.
Proof. unfold entries. rewrite <- list_fmap_compose. by apply list_fmap_ext. Qed.

Lemma push_all_rpush L cb pn : ∀ m l,
  is_list m L cb l → NoDup pn.*1 →
  (∀ p n, (p, n) ∈ pn → p ≠ NULL ∧ nodes m !! p = Some n ∧ p ∉ l.*1) →
  Z.of_nat (length l) + Z.of_nat (length pn) < 2 ^ 32 →
  ∃ m', push_all list_rpush L pn.*1 m = Ok tt m' ∧
        is_list m' L cb (l ++ entries pn) ∧
        released m' = released m ∧ budget m' = budget m.
Proof.
  induction pn as [|[p n] pn IH]; intros m l Hl Hnd Hlive Hlen.
  - exists m. rewrite app_nil_r. by split_and!.
  - cbn [fmap list_fmap fst length] in *. apply NoDup_cons in Hnd as [Hp Hnd].
    destruct (Hlive p n) as (Hpn & Hn & Hout); [by left|].
    destruct (list_rpush_spec m L cb l p n Hl Hpn Hn Hout)
      as (m1 & Hrun & Hl1 & Hr & Hb & _ & Hfr); [lia|].
    destruct (IH m1 (l ++ [(p, node_val n)]) Hl1 Hnd) as (m' & Hruns & Hl' & Hr' & Hb').
    + intros q nq Hq. destruct (Hlive q nq) as (Hq1 & Hq2 & Hq3); [by right|].
      assert (q ≠ p) as Hne.
      { intros ->. apply Hp. apply list_elem_of_fmap. by exists (p, nq). }
      split_and!; [done| |].
      * rewrite Hfr; [done|]. by apply not_elem_of_cons.
      * rewrite fmap_app. apply not_elem_of_app. split; [done|].
        cbn. apply not_elem_of_cons. split; [done|apply not_elem_of_nil].
    + rewrite length_app. cbn [length]. lia.
    + exists m'. split_and!; try congruence.
      * cbn [push_all]. eapply bind_ok; [exact Hrun|exact Hruns].
      * by rewrite <- app_assoc in Hl'.
Qed.

(** A queue and a stack of any size: detached nodes pushed in turn by
    [list_rpush] on an empty list come back, all of them, from as many
    [list_lpop] in the order pushed, and from as many [list_rpop] in the
    reverse order. *)
Theorem queue_and_stack_order (m : mem) (L : Z) (cb : callbacks)
  (pn : list (Z * list_node_t)) :
  is_list m L cb [] → NoDup pn.*1 →
  (∀ p n, (p, n) ∈ pn → p ≠ NULL ∧ nodes m !! p = Some n) →
  Z.of_nat (length pn) < 2 ^ 32 →
  (∃ m', (push_all list_rpush L pn.*1 ;;; pop_n list_lpop L (length pn)) m =
         Ok pn.*1 m' ∧ is_list m' L cb []) ∧
  (∃ m', (push_all list_rpush L pn.*1 ;;; pop_n list_rpop L (length pn)) m =
         Ok (rev pn.*1) m' ∧ is_list m' L cb []).
Proof.
  intros Hl Hnd Hlive Hlen.
  destruct (push_all_rpush L cb pn m [] Hl Hnd) as (m1 & Hrun & Hl1 & _).
  { intros p n Hin. destruct (Hlive p n Hin). split_and!; try done.
    cbn. apply not_elem_of_nil. }
  { cbn [length]. lia. }
  cbn [app] in Hl1.
  assert (length (entries pn) = length pn) as Hlen' by apply length_fmap.
  split.
  - destruct (pop_n_lpop L cb _ m1 Hl1) as (m' & Hpop & Hl' & _).
    rewrite Hlen', entries_fst in Hpop.
    exists m'. split; [|done]. eapply bind_ok; [exact Hrun|exact Hpop].
  - destruct (pop_n_rpop L cb _ m1 Hl1) as (m' & Hpop & Hl' & _).
    rewrite Hlen', entries_fst in Hpop.
    exists m'. split; [|done]. eapply bind_ok; [exact Hrun|exact Hpop].
Qed.

Lemma queue_and_stack_order_witness :
  ∃ m', (push_all list_rpush 1 [2; 1] ;;; pop_n list_lpop 1 2) tie_mem =
        Ok [2; 1] m' ∧
        is_list m' 1 (Callbacks None None (Some compare_gt)) [].
Proof.
  apply (queue_and_stack_order tie_mem 1 (Callbacks None None (Some compare_gt))
           [(2, Node NULL NULL 7); (1, Node NULL NULL 7)] tie_mem_is_list).
  - cbn. apply NoDup_ListNoDup. repeat (constructor; [cbn; lia|]). constructor.
  - intros p n Hin.
    repeat (apply elem_of_cons in Hin as [Hin|Hin];
            [injection Hin as -> ->; by split|]).
    by apply elem_of_nil in Hin.
  - reflexivity.
Defined.

(** ** A push does not test that the node is detached *)

Lemma reach_null_inv h ps : reach h NULL ps → ps = [].
Proof. by inversion 1. Qed.

(** [list_rpush] of a node that is already in the list is not refused:
    pushing again the head of a list of two nodes or more returns the node
    and leaves [head] and [tail] both on it, its [next] null and [len] one
    more, so that a single node is reached from [head] and the invariants
    are lost. *)
Theorem list_rpush_member_corrupts (m : mem) (L : Z) (cb : callbacks)
  (h hv t tv : Z) (l0 : list (Z * Z)) :
  is_list m L cb ((h, hv) :: l0 ++ [(t, tv)]) →
  Z.of_nat (length l0) + 3 < 2 ^ 32 →
  ∃ m' lt,
    list_rpush L h m = Ok h m' ∧
    lists m' !! L = Some lt ∧
    list_head lt = h ∧ list_tail lt = h ∧
    list_len lt = Z.of_nat (length l0) + 3 ∧
    nodes m' !! h = Some (Node t NULL hv) ∧
    ¬ invariants m' L.
Proof.
  intros (HL & Hlt & Hlen & Hnd & Hd) Hroom.
  apply dll_cons in Hd as (Hh & Hhn & Hd). apply dll_snoc in Hd as (Hd & Ht & Htn).
  rewrite last_ptr_cons_snoc in Hlt. cbn [hd_ptr length] in Hlt.
  rewrite length_app in Hlt. cbn [length] in Hlt.
  facts. facts.
  destruct m as [nd ls its rel b]. mem_simpl.
  unfold list_rpush. rewrite !is_null_ne by done. cbn [orb].
  eexists _, _. split; [run|]. heap_norm.
  split_and!; [lookup_tac|reflexivity|reflexivity| |lookup_tac|].
  - cbn [list_len]. rewrite wrap32_small by lia. lia.
  - intros (lt & ps & Hlt' & Hreach & Hlen' & _). mem_simpl.
    rewrite lookup_insert_eq in Hlt'. injection Hlt' as <-.
    cbn [list_head list_len] in *.
    inversion Hreach as [|? n ps' _ Hn Hnext]; subst.
    + done.
    + rewrite lookup_insert_ne, lookup_insert_eq in Hn by done.
      injection Hn as <-. cbn [node_next] in Hnext.
      apply reach_null_inv in Hnext as ->. cbn [length] in Hlen'.
      rewrite wrap32_small in Hlen' by lia. lia.
Qed.

Lemma list_rpush_member_corrupts_witness :
  ∃ m' lt,
    list_rpush 1 1 abc_mem = Ok 1 m' ∧
    lists m' !! 1 = Some lt ∧
    list_head lt = 1 ∧ list_tail lt = 1 ∧
    list_len lt = Z.of_nat (length [(2, 20)]) + 3 ∧
    nodes m' !! 1 = Some (Node 3 NULL 10) ∧
    ¬ invariants m' 1.
Proof.
  apply (list_rpush_member_corrupts abc_mem 1 no_callbacks 1 10 3 30 [(2, 20)]
           abc_mem_is_list).
  reflexivity.
Defined.
